(** * Exoplanet Intelligence: the prediction form, its validation, the API
      client, the result charts and the predictions table.

    A shallow embedding of
    - [frontend/src/utils/validation.js]   (validateFeature, validateAllFeatures),
    - [frontend/src/components/InputForm.jsx] (FEATURE_CONFIG and the handlers),
    - [frontend/src/pages/Home.jsx]        (handleSubmit),
    - [frontend/src/services/api.js]       (the response interceptor and calls),
    - [frontend/src/components/Charts.jsx] (RegressionChart, ClassificationChart),
    - [database/schema.sql], [database/seed_data.sql] (the predictions table).

    JavaScript numbers are modelled by their exact rational value (plus NaN
    and the two infinities): every decimal literal, JSON number and
    [parseFloat] result is taken at its mathematical value, the rounding to
    binary64 is not modelled. Strings are byte strings. *)

From Stdlib Require Import Bool List String Ascii ZArith QArith Qabs Sorted Lia Lqa.
Import ListNotations.

Set Implicit Arguments.
Local Set Warnings "-register-all".

(* ================================================================== *)
(** * Part I. The embedding *)
(* ================================================================== *)

(** ** JavaScript values *)

Module Js.

(** A JavaScript Number: NaN, a finite value, or a signed infinity. *)
Inductive Number : Type :=
| NaN
| Fin (q : Q)
| PosInf
| NegInf.

Definition Qltb (a b : Q) : bool := negb (Qle_bool b a).

(** [a < b] on numbers: false as soon as one side is NaN. *)
Definition lt (a b : Number) : bool :=
  match a, b with
  | NaN, _ | _, NaN => false
  | Fin x, Fin y => Qltb x y
  | NegInf, NegInf => false
  | NegInf, _ => true
  | _, NegInf => false
  | PosInf, _ => false
  | Fin _, PosInf => true
  end.

(** [a > b] is [b < a] with the operands evaluated left to right. *)
Definition gt (a b : Number) : bool := lt b a.

(** [a <= b] and [a >= b] on numbers. *)
Definition le (a b : Number) : bool :=
  match a, b with
  | NaN, _ | _, NaN => false
  | Fin x, Fin y => Qle_bool x y
  | NegInf, _ => true
  | _, PosInf => true
  | _, NegInf => false
  | PosInf, _ => false
  end.

Definition ge (a b : Number) : bool := le b a.

(** [isNaN] on a value that is already a Number. *)
Definition isNaN (n : Number) : bool :=
  match n with NaN => true | _ => false end.

(** [a + b] and [a - b] on Numbers. *)
Definition add (a b : Number) : Number :=
  match a, b with
  | NaN, _ | _, NaN => NaN
  | Fin x, Fin y => Fin (x + y)
  | PosInf, NegInf | NegInf, PosInf => NaN
  | PosInf, _ | _, PosInf => PosInf
  | NegInf, _ | _, NegInf => NegInf
  end.

Definition neg (a : Number) : Number :=
  match a with
  | NaN => NaN
  | Fin x => Fin (- x)
  | PosInf => NegInf
  | NegInf => PosInf
  end.

Definition sub (a b : Number) : Number := add a (neg b).

(** Truthiness of a Number: [0] and [NaN] are falsy. *)
Definition num_truthy (n : Number) : bool :=
  match n with
  | NaN => false
  | Fin q => negb (Qeq_bool q 0)
  | PosInf | NegInf => true
  end.

(** Values: the primitives, arrays, and plain objects as ordered property
    lists (what [JSON.parse] and object literals produce). *)
Inductive Value : Type :=
| JUndefined
| JNull
| JBool (b : bool)
| JNum (n : Number)
| JStr (s : string)
| JArr (items : list Value)
| JObj (props : list (string * Value)).

Definition num (q : Q) : Value := JNum (Fin q).

(** ToBoolean. *)
Definition truthy (v : Value) : bool :=
  match v with
  | JUndefined | JNull => false
  | JBool b => b
  | JNum n => num_truthy n
  | JStr s => negb (String.eqb s EmptyString)
  | JArr _ | JObj _ => true
  end.

(** [a || b]: the left operand when it is truthy, else the right one. *)
Definition or (a b : Value) : Value := if truthy a then a else b.

(** *** Objects as ordered property lists *)

Section Objects.
Variable V : Type.

Definition Object : Type := list (string * V).

(** [o[k]]; [None] is [undefined]. *)
Fixpoint get (o : Object) (k : string) : option V :=
  match o with
  | [] => None
  | (k', v) :: rest => if String.eqb k' k then Some v else get rest k
  end.

(** [{...o, [k]: v}] and [o[k] = v]: an existing key keeps its position,
    a new key goes last. *)
Fixpoint set (o : Object) (k : string) (v : V) : Object :=
  match o with
  | [] => [(k, v)]
  | (k', v') :: rest =>
      if String.eqb k' k then (k', v) :: rest else (k', v') :: set rest k v
  end.

(** [Object.keys(o)]. *)
Definition keys (o : Object) : list string := map fst o.

End Objects.

(** Property read on a value, [v?.k]: undefined unless [v] is an object
    that has the property. *)
Definition prop (v : Value) (k : string) : Value :=
  match v with
  | JObj props => match get props k with Some x => x | None => JUndefined end
  | _ => JUndefined
  end.

(** *** parseFloat *)

Definition is_white (c : ascii) : bool :=
  let n := nat_of_ascii c in
  (Nat.eqb n 9 || Nat.eqb n 10 || Nat.eqb n 11 || Nat.eqb n 12
   || Nat.eqb n 13 || Nat.eqb n 32)%bool.

Fixpoint trim_start (s : string) : string :=
  match s with
  | String c rest => if is_white c then trim_start rest else s
  | EmptyString => s
  end.

Definition digit (c : ascii) : option Z :=
  let n := nat_of_ascii c in
  if (Nat.leb 48 n && Nat.leb n 57)%bool then Some (Z.of_nat (n - 48)) else None.

(** Reads a run of decimal digits: the value accumulated on [acc], the
    number of digits read, and the rest of the input. *)
Fixpoint digits (acc : Z) (count : nat) (s : string) : Z * nat * string :=
  match s with
  | String c rest =>
      match digit c with
      | Some d => digits (10 * acc + d) (S count) rest
      | None => (acc, count, s)
      end
  | EmptyString => (acc, count, s)
  end.

(** An optional sign: [true] for a minus. *)
Definition sign (s : string) : bool * string :=
  match s with
  | String "-"%char rest => (true, rest)
  | String "+"%char rest => (false, rest)
  | _ => (false, s)
  end.

(** ExponentPart: [e] or [E], an optional sign and at least one digit;
    0 when there is none. *)
Definition exponent (s : string) : Z :=
  match s with
  | String c rest =>
      if (Ascii.eqb c "e" || Ascii.eqb c "E")%bool then
        let '(negative, rest') := sign rest in
        let '(e, n, _) := digits 0 0 rest' in
        match n with
        | O => 0
        | S _ => if negative then - e else e
        end
      else 0
  | EmptyString => 0
  end%Z.

Definition pow10 (e : Z) : Q := Qpower (10 # 1) e.

(** The longest prefix that is a StrUnsignedDecimalLiteral, as a number. *)
Definition unsigned_literal (s : string) : Number :=
  if String.prefix "Infinity" s then PosInf
  else
    let '(i, ni, after_int) := digits 0 0 s in
    match after_int with
    | String "."%char after_dot =>
        let '(m, nf, after_frac) := digits i 0 after_dot in
        match ni, nf with
        | O, O => NaN
        | _, _ =>
            Fin (Qred (inject_Z m * pow10 (exponent after_frac - Z.of_nat nf)))
        end
    | _ =>
        match ni with
        | O => NaN
        | S _ => Fin (Qred (inject_Z i * pow10 (exponent after_int)))
        end
    end.

Definition parseFloat_string (s : string) : Number :=
  let '(negative, rest) := sign (trim_start s) in
  let n := unsigned_literal rest in
  if negative then neg n else n.

(** [parseFloat(v)] is [parseFloat_string (ToString v)]. A Number prints to
    a literal that reads back as itself; [true], [undefined], [null] and
    [[object Object]] have no numeric prefix; an array prints its elements
    separated by commas (null and undefined as the empty string), so only
    its first element is read. *)
Fixpoint parseFloat (v : Value) : Number :=
  match v with
  | JNum n => n
  | JStr s => parseFloat_string s
  | JArr items =>
      match items with
      | x :: _ => parseFloat x
      | [] => NaN
      end
  | JUndefined | JNull | JBool _ | JObj _ => NaN
  end.

End Js.

(** ** The feature schema and the validation utilities *)

Module Spec.

(** One entry of a feature configuration array. [min] and [max] are
    [None] when the property is absent ([undefined]); [required] is the
    value of the property, [JUndefined] when the entry has none. *)
Record t : Type := make {
  key : string;
  name : string;
  unit : string;
  min : option Q;
  max : option Q;
  default : Js.Value;
  description : string;
  required : Js.Value
}.

End Spec.

Module Validation.

(** The message a validation returns: the template that produced it and
    the values interpolated into it. *)
Inductive Error : Type :=
| UnknownFeature (key : string)            (* `Unknown feature: ${key}` *)
| IsRequired (name : string)               (* `${name} is required` *)
| MustBeNumber (name : string)             (* `${name} must be a number` *)
| MustBeAtLeast (name : string) (min : Q)  (* `${name} must be at least ${min}` *)
| MustBeAtMost (name : string) (max : Q).  (* `${name} must be at most ${max}` *)

(** The string of a message, given the engine's printing of a Number. *)
Definition render (show : Q -> string) (e : Error) : string :=
  match e with
  | UnknownFeature k => "Unknown feature: " ++ k
  | IsRequired n => n ++ " is required"
  | MustBeNumber n => n ++ " must be a number"
  | MustBeAtLeast n lo => n ++ " must be at least " ++ show lo
  | MustBeAtMost n hi => n ++ " must be at most " ++ show hi
  end%string.

(** [config.find(f => f.key === key)]. *)
Definition find_feature (config : list Spec.t) (key : string) : option Spec.t :=
  find (fun f => String.eqb (Spec.key f) key) config.

(** [value === '' || value === null || value === undefined]. *)
Definition is_empty (value : Js.Value) : bool :=
  match value with
  | Js.JStr s => String.eqb s EmptyString
  | Js.JNull | Js.JUndefined => true
  | _ => false
  end.

(** [featureConfig.max !== undefined && numValue > featureConfig.max]
    and what follows it. *)
Definition check_max (featureConfig : Spec.t) (numValue : Js.Number)
  : option Error :=
  match Spec.max featureConfig with
  | Some hi =>
      if Js.gt numValue (Js.Fin hi)
      then Some (MustBeAtMost (Spec.name featureConfig) hi)
      else None
  | None => None
  end.

(** [featureConfig.min !== undefined && numValue < featureConfig.min]
    and what follows it. *)
Definition check_min (featureConfig : Spec.t) (numValue : Js.Number)
  : option Error :=
  match Spec.min featureConfig with
  | Some lo =>
      if Js.lt numValue (Js.Fin lo)
      then Some (MustBeAtLeast (Spec.name featureConfig) lo)
      else check_max featureConfig numValue
  | None => check_max featureConfig numValue
  end.

(** [validateFeature(key, value, config)]: the error message, or [None]
    for [null]. *)
Definition validateFeature (key : string) (value : Js.Value)
  (config : list Spec.t) : option Error :=
  match find_feature config key with
  | None => Some (UnknownFeature key)
  | Some featureConfig =>
      if is_empty value then
        if Js.truthy (Spec.required featureConfig)
        then Some (IsRequired (Spec.name featureConfig))
        else None
      else
        let numValue := Js.parseFloat value in
        if Js.isNaN numValue
        then Some (MustBeNumber (Spec.name featureConfig))
        else check_min featureConfig numValue
  end.

(** [features[k]]: a missing property reads as [undefined]. *)
Definition read (features : Js.Object Js.Value) (k : string) : Js.Value :=
  match Js.get features k with
  | Some v => v
  | None => Js.JUndefined
  end.

(** The body of [for (const feature of config)] in [validateAllFeatures],
    run over the entries still to visit. An error message is a non-empty
    string, so [if (error)] is the test that there is one. *)
Fixpoint validate_each (features : Js.Object Js.Value) (config : list Spec.t)
  (todo : list Spec.t) (errors : Js.Object (option Error))
  : Js.Object (option Error) :=
  match todo with
  | [] => errors
  | feature :: rest =>
      let value := read features (Spec.key feature) in
      match validateFeature (Spec.key feature) value config with
      | Some error =>
          validate_each features config rest
            (Js.set errors (Spec.key feature) (Some error))
      | None => validate_each features config rest errors
      end
  end.

(** [validateAllFeatures(features, config)]. *)
Definition validateAllFeatures (features : Js.Object Js.Value)
  (config : list Spec.t) : Js.Object (option Error) :=
  validate_each features config config [].

(** [isValidFeatures(features, config)]. *)
Definition isValidFeatures (features : Js.Object Js.Value)
  (config : list Spec.t) : bool :=
  Nat.eqb (List.length (Js.keys (validateAllFeatures features config))) 0.

(** [getDefaultFeatures(config)]: the reduce that spreads the accumulator
    and sets [f.key] to [f.default]. *)
Definition getDefaultFeatures (config : list Spec.t) : Js.Object Js.Value :=
  fold_left (fun acc f => Js.set acc (Spec.key f) (Spec.default f)) config [].

(** [isInRange(value, min, max)]. *)
Definition isInRange (value : Js.Value) (min max : Js.Number) : bool :=
  let num := Js.parseFloat value in
  (negb (Js.isNaN num) && Js.ge num min && Js.le num max)%bool.

(** The entries of a configuration that the features fail. *)
Definition failing (features : Js.Object Js.Value) (config : list Spec.t)
  (f : Spec.t) : bool :=
  match validateFeature (Spec.key f) (read features (Spec.key f)) config with
  | Some _ => true
  | None => false
  end.

(** An entry whose default is a number inside its declared bounds. *)
Definition default_in_bounds (f : Spec.t) : Prop :=
  exists d lo hi,
    Spec.default f = Js.num d /\ Spec.min f = Some lo /\ Spec.max f = Some hi
    /\ lo <= d /\ d <= hi.

End Validation.

(** ** The prediction form *)

Module InputForm.

Import Validation.

Definition feature (k n u : string) (lo hi d : Q) (desc : string) : Spec.t :=
  Spec.make k n u (Some lo) (Some hi) (Js.num d) desc Js.JUndefined.

(** [FEATURE_CONFIG] of InputForm.jsx. *)
Definition FEATURE_CONFIG : list Spec.t := [
  feature "koi_prad" "Planetary Radius" "Earth radii" 0.1 30 2.0
    "Radius of the planet in Earth radii";
  feature "koi_depth" "Transit Depth" "ppm" 0 10000 100
    "Depth of the transit in parts per million";
  feature "koi_period" "Orbital Period" "days" 0.1 1000 50
    "Time between successive transits";
  feature "koi_srad" "Stellar Radius" "Solar radii" 0.1 10 1.0
    "Radius of the host star in solar radii";
  feature "koi_steff" "Stellar Temperature" "Kelvin" 2500 10000 5778
    "Effective temperature of the host star";
  feature "koi_smass" "Stellar Mass" "Solar masses" 0.1 5 1.0
    "Mass of the host star in solar masses";
  feature "koi_slogg" "Surface Gravity" "log(g)" 1 5 4.5
    "Surface gravity of the host star";
  feature "koi_lum" "Luminosity" "log(L☉)" (-3) 5 0
    "Luminosity of the host star";
  feature "koi_impact" "Impact Parameter" "" 0 2 0.5
    "Impact parameter of the transit";
  feature "koi_duration" "Transit Duration" "hours" 0.1 50 3
    "Duration of the transit";
  feature "koi_dor" "Distance Ratio" "" 1 200 20
    "Planet-star distance ratio (a/R*)";
  feature "koi_model_snr" "Signal-to-Noise" "" 0 500 20
    "Model signal-to-noise ratio";
  feature "koi_kepmag" "Kepler Magnitude" "mag" 5 20 14
    "Kepler magnitude of the target";
  feature "koi_score" "Disposition Score" "" 0 1 0.5
    "Probability score for planet disposition";
  feature "koi_qof" "Quality Flag" "" 0 1 0.9
    "Quality flag for the KOI (usually close to 1)"
]%Q.

(** The restyled InputForm.jsx has the same table with other unit labels. *)
Definition relabel (u : string) (f : Spec.t) : Spec.t :=
  Spec.make (Spec.key f) (Spec.name f) u (Spec.min f) (Spec.max f)
    (Spec.default f) (Spec.description f) (Spec.required f).

Definition FEATURE_CONFIG_restyled : list Spec.t :=
  map (fun uf => relabel (fst uf) (snd uf))
    (combine
       ["R⊕"; "ppm"; "days"; "R☉"; "K"; "M☉"; "log(g)"; "log(L☉)"; "";
        "hours"; "a/R★"; "SNR"; "mag"; "0-1"; "0-1"]%string
       FEATURE_CONFIG).

(** The three pieces of component state. [errors] maps a key to a message
    or to [null] ([None]). *)
Record State : Type := {
  features : Js.Object Js.Value;
  errors : Js.Object (option Error);
  touched : Js.Object bool
}.

(** The initial [useState] values. *)
Definition initial : State := {|
  features :=
    fold_left (fun acc f => Js.set acc (Spec.key f) (Spec.default f))
      FEATURE_CONFIG [];
  errors := [];
  touched := []
|}.

(** [errors[key]] is truthy: a message, neither absent nor [null]. *)
Definition has_error (errs : Js.Object (option Error)) (key : string) : bool :=
  match Js.get errs key with
  | Some (Some _) => true
  | _ => false
  end.

(** [handleChange(key, value)]. *)
Definition handleChange (key : string) (value : Js.Value) (st : State) : State := {|
  features := Js.set (features st) key value;
  errors :=
    if has_error (errors st) key then Js.set (errors st) key None
    else errors st;
  touched := touched st
|}.

(** [handleBlur(key)]. *)
Definition handleBlur (key : string) (st : State) : State := {|
  features := features st;
  errors :=
    match validateFeature key (read (features st) key) FEATURE_CONFIG with
    | Some error => Js.set (errors st) key (Some error)
    | None => errors st
    end;
  touched := Js.set (touched st) key true
|}.

(** [handleSubmit(e)]: the next state and the calls made to [onSubmit],
    each with its argument. *)
Definition handleSubmit (st : State) : State * list (Js.Object Js.Value) :=
  let allErrors := validateAllFeatures (features st) FEATURE_CONFIG in
  ({| features := features st;
      errors := allErrors;
      touched :=
        fold_left (fun acc f => Js.set acc (Spec.key f) true) FEATURE_CONFIG [] |},
   if Nat.eqb (List.length (Js.keys allErrors)) 0 then [features st] else []).

(** What the rendered form lets a user do: type into the input of one of
    the configured features (the handler receives [e.target.value], a
    string), leave such an input, or submit. *)
Inductive Event : Type :=
| Change (f : Spec.t) (text : string)
| Blur (f : Spec.t)
| Submit.

Definition wired (ev : Event) : Prop :=
  match ev with
  | Change f _ | Blur f => In f FEATURE_CONFIG
  | Submit => True
  end.

Definition step (st : State) (ev : Event) : State * list (Js.Object Js.Value) :=
  match ev with
  | Change f text => (handleChange (Spec.key f) (Js.JStr text) st, [])
  | Blur f => (handleBlur (Spec.key f) st, [])
  | Submit => handleSubmit st
  end.

(** Runs a sequence of events, collecting the [onSubmit] calls in order. *)
Fixpoint run (st : State) (evs : list Event) : State * list (Js.Object Js.Value) :=
  match evs with
  | [] => (st, [])
  | ev :: rest =>
      let '(st1, calls1) := step st ev in
      let '(st2, calls2) := run st1 rest in
      (st2, calls1 ++ calls2)
  end.

(** The shape of the features held by the form: one entry per configured
    feature, in the order of the configuration, holding either the
    configured default or a string typed into the input. *)
Definition held (kv : string * Js.Value) (f : Spec.t) : Prop :=
  fst kv = Spec.key f /\
  (snd kv = Spec.default f \/ exists text, snd kv = Js.JStr text).

Definition form_shape (o : Js.Object Js.Value) : Prop :=
  Forall2 held o FEATURE_CONFIG.

(** A value of an accepted map, entry by entry: empty (the configuration
    requires nothing), or one whose [parseFloat] lies inside the bounds. *)
Definition acceptable (kv : string * Js.Value) (f : Spec.t) : Prop :=
  is_empty (snd kv) = true \/
  exists q lo hi,
    Js.parseFloat (snd kv) = Js.Fin q /\
    Spec.min f = Some lo /\ Spec.max f = Some hi /\ lo <= q /\ q <= hi.

(** The form after 999999 is typed into the koi_prad input. *)
Definition out_of_range_form : State :=
  handleChange "koi_prad" (Js.JStr "999999") initial.

(** Typing 2.5 into the first input and submitting. *)
Definition typed_events : list Event :=
  match FEATURE_CONFIG with
  | koi_prad :: _ => [Change koi_prad "2.5"; Submit]
  | [] => []
  end.

(** Features with a key that the configuration does not list. *)
Definition with_unlisted_key : State := {|
  features := Js.set (features initial) "koi_unlisted" (Js.num 1);
  errors := [];
  touched := []
|}.

(** [touched[key]] is truthy. *)
Definition is_touched (t : Js.Object bool) (key : string) : bool :=
  match Js.get t key with
  | Some b => b
  | None => false
  end.

(** [getFieldClass(key)] of the first version of the form. *)
Definition getFieldClass (key : string) (st : State) : string :=
  if negb (is_touched (touched st) key) then "input-field"
  else if has_error (errors st) key then "input-field border-red-500"
  else "input-field border-green-500".

(** [fieldState(key)] of the restyled form. *)
Definition fieldState (key : string) (st : State) : string :=
  if negb (is_touched (touched st) key) then "neutral"
  else if has_error (errors st) key then "error"
  else "valid".

(** The number of submit events in a run. *)
Fixpoint submits (evs : list Event) : nat :=
  match evs with
  | [] => O
  | Submit :: rest => S (submits rest)
  | _ :: rest => submits rest
  end.

(** Every error held is the verdict on the value held. *)
Definition errors_current (st : State) : Prop :=
  forall k e,
    Js.get (errors st) k = Some (Some e) ->
    validateFeature k (read (features st) k) FEATURE_CONFIG = Some e.

(** Typing 999999 into the first input and leaving it. *)
Definition blur_events : list Event :=
  match FEATURE_CONFIG with
  | koi_prad :: _ => [Change koi_prad "999999"; Blur koi_prad]
  | [] => []
  end.

End InputForm.

(** ** The documented feature set *)

Module ApiDocs.

(** The Feature Descriptions table of the API documentation. *)
Definition documented_features : list string := [
  "koi_prad"; "koi_depth"; "koi_period"; "koi_srad"; "koi_steff"; "koi_smass";
  "koi_slogg"; "koi_lum"; "koi_impact"; "koi_duration"; "koi_dor";
  "koi_model_snr"; "koi_kepmag"; "koi_score"
]%string.

End ApiDocs.

(** ** The API client *)

Module Api.

(** ToString, as [new Error(message)] applies it to its argument, given
    the engine's printing of a finite Number. *)
Section ToString.
Variable show : Q -> string.

Fixpoint ToString (v : Js.Value) : string :=
  match v with
  | Js.JUndefined => "undefined"
  | Js.JNull => "null"
  | Js.JBool true => "true"
  | Js.JBool false => "false"
  | Js.JNum Js.NaN => "NaN"
  | Js.JNum Js.PosInf => "Infinity"
  | Js.JNum Js.NegInf => "-Infinity"
  | Js.JNum (Js.Fin q) => show q
  | Js.JStr s => s
  | Js.JArr items =>
      (fix join (l : list Js.Value) : string :=
         match l with
         | [] => ""
         | x :: rest =>
             let sx := match x with
                       | Js.JUndefined | Js.JNull => ""
                       | _ => ToString x
                       end in
             match rest with
             | [] => sx
             | _ :: _ => sx ++ "," ++ join rest
             end
         end) items
  | Js.JObj _ => "[object Object]"
  end%string.

(** The error handler of [apiClient.interceptors.response.use]: the
    message of the [Error] the returned promise rejects with. [error] is
    the error object axios passes, by its properties: [response] (absent
    on a network failure or timeout) holds the parsed body in [data];
    [message] is the transport's own text. *)
Definition response_detail (error : Js.Object Js.Value) : Js.Value :=
  Js.prop (Js.prop (Js.prop (Js.JObj error) "response") "data") "detail".

Definition response_message (error : Js.Object Js.Value) : Js.Value :=
  Js.prop (Js.prop (Js.prop (Js.JObj error) "response") "data") "message".

Definition transport_message (error : Js.Object Js.Value) : Js.Value :=
  Js.prop (Js.JObj error) "message".

Definition chosen_message (error : Js.Object Js.Value) : Js.Value :=
  Js.or
    (Js.or (Js.or (response_detail error) (response_message error))
           (transport_message error))
    (Js.JStr "Something went wrong").

Definition on_rejected (error : Js.Object Js.Value) : string :=
  ToString (chosen_message error).

End ToString.

(** The success handler: [(response) => response.data]. *)
Definition on_fulfilled (response : Js.Value) : Js.Value :=
  Js.prop response "data".

(** A request handed to axios. The paths are those of the api.js that
    uses relative URLs; the other version takes the base URL from the
    environment and leaves the /api prefix to it. *)
Inductive Request : Type :=
| Post (url : string) (data : Js.Value)
| Get (url : string) (params : Js.Object Js.Value).

Definition predictClassification (features : Js.Value) : Request :=
  Post "/api/predict/classification" (Js.JObj [("features"%string, features)]).

Definition predictRegression (features : Js.Value) : Request :=
  Post "/api/predict/regression" (Js.JObj [("features"%string, features)]).

(** [getPredictionHistory(limit = 50, offset = 0)]: a parameter left out or
    passed as [undefined] takes its default. *)
Definition getPredictionHistory (limit offset : Js.Value) : Request :=
  let limit' := match limit with Js.JUndefined => Js.num 50 | _ => limit end in
  let offset' := match offset with Js.JUndefined => Js.num 0 | _ => offset end in
  Get "/api/predictions/history"
      [("limit"%string, limit'); ("offset"%string, offset')].

Definition getModelInfo : Request := Get "/api/models/info" [].

Definition checkHealth : Request := Get "/api/health" [].




(** The error axios builds for a 422 answer whose detail maps fields to
    messages. *)
Definition per_field_error : Js.Object Js.Value :=
  [ ("message", Js.JStr "Request failed with status code 422");
    ("response",
     Js.JObj [("status", Js.num 422);
              ("data",
               Js.JObj [("detail",
                         Js.JObj [("koi_prad", Js.JStr "out of range")])])])
  ]%string.

End Api.

(** ** The home page *)

Module Home.

(** [handleSubmit(features)] first picks the call by the task type. *)
Definition request (taskType : string) (features : Js.Object Js.Value)
  : Api.Request :=
  if String.eqb taskType "classification"
  then Api.predictClassification (Js.JObj features)
  else Api.predictRegression (Js.JObj features).

Record State : Type := {
  taskType : string;
  result : Js.Value;
  error : Js.Value;
  isLoading : bool
}.

(** How the awaited call settles: with the body the interceptor unwrapped,
    or with the [Error] it built. *)
Inductive Settled : Type :=
| Fulfilled (data : Js.Value)
| Rejected (message : string).

(** The state once [handleSubmit] has run to its [finally]. *)
Definition handleSubmit (st : State) (outcome : Settled) : State :=
  match outcome with
  | Fulfilled response =>
      {| taskType := taskType st; result := response;
         error := Js.JNull; isLoading := false |}
  | Rejected message =>
      {| taskType := taskType st; result := Js.JNull;
         error := Js.or (Js.JStr message)
                        (Js.JStr "An error occurred during prediction");
         isLoading := false |}
  end.

(** The requests a submit of the form sends: one per [onSubmit] call. *)
Definition requests_of_submit (taskType : string) (form : InputForm.State)
  : list Api.Request :=
  map (request taskType) (snd (InputForm.handleSubmit form)).

(** The initial [useState] values of the page. *)
Definition initial : State := {|
  taskType := "classification";
  result := Js.JNull;
  error := Js.JNull;
  isLoading := false
|}.

(** [handleTaskTypeChange(newType)]. *)
Definition handleTaskTypeChange (newType : string) (st : State) : State := {|
  taskType := newType;
  result := Js.JNull;
  error := Js.JNull;
  isLoading := isLoading st
|}.

(** How axios settles a call before the interceptor sees it: with the
    response object, or with its error object. *)
Inductive Transport : Type :=
| Responded (response : Js.Value)
| Failed (error : Js.Object Js.Value).

(** The awaited call as the page sees it, through the interceptor. *)
Definition through_interceptor (show : Q -> string) (t : Transport) : Settled :=
  match t with
  | Responded response => Fulfilled (Api.on_fulfilled response)
  | Failed error => Rejected (Api.on_rejected show error)
  end.

End Home.

(** ** The result charts *)

Module Charts.

(** [confidence_interval] of a regression response; a bound is [None]
    when it is absent or null. *)
Record Interval : Type := {
  lower : option Js.Number;
  upper : option Js.Number
}.

(** [x || fallback] for a Number that may be absent. *)
Definition or_number (x : option Js.Number) (fallback : Js.Number) : Js.Number :=
  match x with
  | Some n => if Js.num_truthy n then n else fallback
  | None => fallback
  end.

(** [confidenceInterval?.lower] and [confidenceInterval?.upper]. *)
Definition opt_lower (ci : option Interval) : option Js.Number :=
  match ci with Some i => lower i | None => None end.

Definition opt_upper (ci : option Interval) : option Js.Number :=
  match ci with Some i => upper i | None => None end.

(** The three points [RegressionChart] plots. The props are the response's
    [prediction] and [confidence_interval], Numbers when present. *)
Record Plot : Type := {
  plot_lower : Js.Number;
  plot_center : Js.Number;
  plot_upper : Js.Number
}.

Definition RegressionChart (prediction : option Js.Number)
  (confidenceInterval : option Interval) : Plot :=
  let center := or_number prediction (Js.Fin 2.5) in
  let lower := or_number (opt_lower confidenceInterval)
                         (Js.sub center (Js.Fin 0.5)) in
  let upper := or_number (opt_upper confidenceInterval)
                         (Js.add center (Js.Fin 0.5)) in
  {| plot_lower := lower; plot_center := center; plot_upper := upper |}.

(** Reading the props out of a response body. *)
Definition number_prop (v : Js.Value) (k : string) : option Js.Number :=
  match Js.prop v k with
  | Js.JNum n => Some n
  | _ => None
  end.



(** The two bars of [ClassificationChart]: [probabilities?.CONFIRMED || 0]
    and [probabilities?.['FALSE POSITIVE'] || 0]. *)
Definition ClassificationChart (probabilities : Js.Value)
  : Js.Number * Js.Number :=
  (or_number (number_prop probabilities "CONFIRMED") (Js.Fin 0),
   or_number (number_prop probabilities "FALSE POSITIVE") (Js.Fin 0)).


(** A response whose interval was clipped at zero by the server. *)
Definition clipped_interval : Interval :=
  {| lower := Some (Js.Fin 0); upper := Some (Js.Fin 0.8) |}.

End Charts.


(** ** The predictions table *)

Module Db.

(** What a statement supplies for a column: nothing (the column default
    applies, also for [DEFAULT]), SQL [NULL], or a value. *)
Inductive Col (A : Type) : Type :=
| Default
| Null
| Val (a : A).

Arguments Default {A}.
Arguments Null {A}.
Arguments Val {A} a.

(** A stored row. Timestamps are seconds; [created_at] may be NULL. *)
Record Row : Type := {
  id : Z;
  task_type : string;
  input_features : Js.Value;
  output_result : Js.Value;
  model_name : string;
  created_at : option Z
}.

(** The table: its rows in insertion order and the state of the sequence
    behind [id SERIAL] (the last value handed out, 0 before the first). *)
Record Table : Type := {
  rows : list Row;
  last_value : Z
}.

(** [CREATE TABLE IF NOT EXISTS predictions (...)] on a fresh database. *)
Definition empty : Table := {| rows := []; last_value := 0 |}.

Inductive Error : Type :=
| NotNullViolation (column : string)
| StringTooLong (column : string)
| CheckViolation (constraint : string)
| UniqueViolation (constraint : string)
| SequenceLimit
| IntegerOutOfRange
| PolicyViolation.

Inductive Result (A : Type) : Type :=
| Ok (a : A)
| Err (e : Error).

Arguments Ok {A} a.
Arguments Err {A} e.

Definition bind {A B : Type} (r : Result A) (k : A -> Result B) : Result B :=
  match r with
  | Ok a => k a
  | Err e => Err e
  end.

Notation "x <- r ;; k" := (bind r (fun x => k))
  (at level 61, r at next level, right associativity).

(** [nextval('predictions_id_seq')] for a 4-byte serial: the sequence moves
    even when the statement later fails. *)
Definition int4_max : Z := 2147483647.
Definition int4_min : Z := -2147483648.

Definition nextval (last : Z) : Z * Result Z :=
  if (last <? int4_max)%Z then ((last + 1)%Z, Ok (last + 1)%Z)
  else (last, Err SequenceLimit).

Fixpoint all_spaces (s : string) : bool :=
  match s with
  | EmptyString => true
  | String c rest => (Ascii.eqb c " " && all_spaces rest)%bool
  end.

(** Storing into [VARCHAR(n)]: a longer string is an error unless the
    excess is all spaces, which is cut off. *)
Definition varchar (n : nat) (column s : string) : Result string :=
  if Nat.leb (String.length s) n then Ok s
  else if all_spaces (substring n (String.length s - n) s)
       then Ok (substring 0 n s)
       else Err (StringTooLong column).

(** [NOT NULL]; a column without a default clause defaults to NULL. *)
Definition not_null {A : Type} (column : string) (c : Col A) : Result A :=
  match c with
  | Val a => Ok a
  | Default | Null => Err (NotNullViolation column)
  end.

(** [CHECK (task_type IN ('classification', 'regression'))]. *)
Definition task_type_check (s : string) : bool :=
  (String.eqb s "classification" || String.eqb s "regression")%bool.

Definition check_task_type (s : string) : Result string :=
  if task_type_check s then Ok s
  else Err (CheckViolation "predictions_task_type_check").

(** Row level security is enabled on the table; these are its policies,
    each with its [USING] or [WITH CHECK] expression. *)
Inductive Command : Type := ForSelect | ForInsert | ForUpdate | ForDelete.

Definition Command_eqb (a b : Command) : bool :=
  match a, b with
  | ForSelect, ForSelect | ForInsert, ForInsert
  | ForUpdate, ForUpdate | ForDelete, ForDelete => true
  | _, _ => false
  end.

Record Policy : Type := {
  policy_name : string;
  command : Command;
  expression : Row -> bool
}.

Definition policies : list Policy := [
  {| policy_name := "Allow public read access"; command := ForSelect;
     expression := fun _ => true |};
  {| policy_name := "Allow insert access"; command := ForInsert;
     expression := fun _ => true |};
  {| policy_name := "Allow update access"; command := ForUpdate;
     expression := fun _ => true |};
  {| policy_name := "Allow delete access"; command := ForDelete;
     expression := fun _ => true |}
].

(** Permissive policies are OR-ed; with none for a command, no row passes. *)
Definition permitted (c : Command) (r : Row) : bool :=
  existsb (fun p => (Command_eqb (command p) c && expression p r)%bool) policies.

(** The column list of an INSERT, and the SET list of an UPDATE ([None]
    for a column the statement does not assign). *)
Record Insert : Type := {
  i_id : Col Z;
  i_task_type : Col string;
  i_input_features : Col Js.Value;
  i_output_result : Col Js.Value;
  i_model_name : Col string;
  i_created_at : Col Z
}.

Record Assign : Type := {
  a_id : option (Col Z);
  a_task_type : option (Col string);
  a_input_features : option (Col Js.Value);
  a_output_result : option (Col Js.Value);
  a_model_name : option (Col string);
  a_created_at : option (Col Z)
}.

Definition in_int4 (v : Z) : Result Z :=
  if ((int4_min <=? v) && (v <=? int4_max))%Z%bool then Ok v
  else Err IntegerOutOfRange.

(** The value of the [id] column: the next sequence value by default. *)
Definition eval_id (last : Z) (c : Col Z) : Z * Result Z :=
  match c with
  | Default => nextval last
  | Null => (last, Err (NotNullViolation "id"))
  | Val v => (last, in_int4 v)
  end.

(** [created_at] defaults to [CURRENT_TIMESTAMP] and may be NULL. *)
Definition eval_created_at (now : Z) (c : Col Z) : option Z :=
  match c with
  | Default => Some now
  | Null => None
  | Val v => Some v
  end.

(** The column constraints of a candidate row, the key apart. *)
Definition build_row (now : Z) (new_id : Z) (s : Insert) : Result Row :=
  ty <- not_null "task_type" (i_task_type s) ;;
  ty <- varchar 50 "task_type" ty ;;
  ty <- check_task_type ty ;;
  inp <- not_null "input_features" (i_input_features s) ;;
  out <- not_null "output_result" (i_output_result s) ;;
  mn <- not_null "model_name" (i_model_name s) ;;
  mn <- varchar 100 "model_name" mn ;;
  Ok {| id := new_id; task_type := ty; input_features := inp;
        output_result := out; model_name := mn;
        created_at := eval_created_at now (i_created_at s) |}.

Definition has_id (v : Z) (rs : list Row) : bool :=
  existsb (fun r => (id r =? v)%Z) rs.

(** [PRIMARY KEY (id)]. *)
Definition primary_key (rs : list Row) (r : Row) : Result Row :=
  if has_id (id r) rs then Err (UniqueViolation "predictions_pkey") else Ok r.

Definition with_check (c : Command) (r : Row) : Result Row :=
  if permitted c r then Ok r else Err PolicyViolation.

(** [INSERT INTO predictions (...) VALUES (...)] at time [now]. *)
Definition insert (now : Z) (t : Table) (s : Insert) : Table * Result Row :=
  let '(last, rid) := eval_id (last_value t) (i_id s) in
  let r := (new_id <- rid ;;
            row <- build_row now new_id s ;;
            row <- with_check ForInsert row ;;
            primary_key (rows t) row) in
  match r with
  | Ok row => ({| rows := rows t ++ [row]; last_value := last |}, r)
  | Err _ => ({| rows := rows t; last_value := last |}, r)
  end.

(** The statement a row is rewritten with: a column not assigned keeps
    its value. *)
Definition keep {A : Type} (old : A) (a : option (Col A)) : Col A :=
  match a with
  | Some c => c
  | None => Val old
  end.

Definition rewrite_row (r : Row) (a : Assign) : Insert := {|
  i_id := keep (id r) (a_id a);
  i_task_type := keep (task_type r) (a_task_type a);
  i_input_features := keep (input_features r) (a_input_features a);
  i_output_result := keep (output_result r) (a_output_result a);
  i_model_name := keep (model_name r) (a_model_name a);
  i_created_at :=
    match a_created_at a, created_at r with
    | Some c, _ => c
    | None, Some v => Val v
    | None, None => Null
    end
|}.

(** The rows of an UPDATE, one after the other; a row the WHERE clause or
    the policy does not select is left as it is. *)
Fixpoint update_rows (now : Z) (where_ : Row -> bool) (assign : Row -> Assign)
  (last : Z) (rs : list Row) : Z * Result (list Row) :=
  match rs with
  | [] => (last, Ok [])
  | r :: rest =>
      if (where_ r && permitted ForUpdate r)%bool then
        let s := rewrite_row r (assign r) in
        let '(last1, rid) := eval_id last (i_id s) in
        match (new_id <- rid ;;
               row <- build_row now new_id s ;;
               with_check ForUpdate row) with
        | Ok row =>
            let '(last2, rrest) := update_rows now where_ assign last1 rest in
            (last2, rest' <- rrest ;; Ok (row :: rest'))
        | Err e => (last1, Err e)
        end
      else
        let '(last1, rrest) := update_rows now where_ assign last rest in
        (last1, rest' <- rrest ;; Ok (r :: rest'))
  end.

Fixpoint unique_ids (rs : list Row) : bool :=
  match rs with
  | [] => true
  | r :: rest => (negb (has_id (id r) rest) && unique_ids rest)%bool
  end.

(** [UPDATE predictions SET ... WHERE ...]: all or nothing. *)
Definition update (now : Z) (t : Table) (where_ : Row -> bool)
  (assign : Row -> Assign) : Table * Result (list Row) :=
  let '(last, r) := update_rows now where_ assign (last_value t) (rows t) in
  match r with
  | Ok rs =>
      if unique_ids rs then ({| rows := rs; last_value := last |}, r)
      else ({| rows := rows t; last_value := last |},
            Err (UniqueViolation "predictions_pkey"))
  | Err _ => ({| rows := rows t; last_value := last |}, r)
  end.

(** [DELETE FROM predictions WHERE ...]. *)
Definition delete (t : Table) (where_ : Row -> bool) : Table := {|
  rows := filter (fun r => negb (where_ r && permitted ForDelete r)) (rows t);
  last_value := last_value t
|}.

(** [SELECT * FROM predictions WHERE ...]. *)
Definition select (t : Table) (where_ : Row -> bool) : list Row :=
  filter (fun r => (where_ r && permitted ForSelect r)%bool) (rows t).

(** Data-changing statements. *)
Inductive Statement : Type :=
| INSERT (s : Insert)
| UPDATE (where_ : Row -> bool) (assign : Row -> Assign)
| DELETE (where_ : Row -> bool).

Definition exec (now : Z) (t : Table) (st : Statement) : Table :=
  match st with
  | INSERT s => fst (insert now t s)
  | UPDATE w a => fst (update now t w a)
  | DELETE w => delete t w
  end.

(** A script: statements in order, each with the time it runs at. *)
Definition exec_all (t : Table) (script : list (Z * Statement)) : Table :=
  fold_left (fun t' st => exec (fst st) t' (snd st)) script t.

(** A script that only appends: INSERT statements that leave [id] to its
    default, as those of the seed script and of the backend's append do. *)
Definition appends (script : list (Z * Statement)) : Prop :=
  Forall (fun st => exists s, snd st = INSERT s /\ i_id s = Default) script.

(** The two invariants every statement keeps: distinct ids and a known
    task type in every row. *)
Definition table_ok (t : Table) : Prop :=
  NoDup (map id (rows t))
  /\ Forall (fun r => task_type_check (task_type r) = true) (rows t).

(** Ids in insertion order, none above the last sequence value. *)
Definition ordered (t : Table) : Prop :=
  StronglySorted Z.lt (map id (rows t))
  /\ Forall (fun r => (id r <= last_value t)%Z) (rows t).

(** An INSERT with a task type the CHECK constraint does not list. *)
Definition clustering_insert : Insert := {|
  i_id := Default;
  i_task_type := Val "clustering"%string;
  i_input_features := Val (Js.JObj []);
  i_output_result := Val (Js.JObj []);
  i_model_name := Val "clustering_pipeline_v1"%string;
  i_created_at := Default
|}.

(** A script that appends with the id left to the store and deletes. *)
Definition appends_and_deletes (script : list (Z * Statement)) : Prop :=
  Forall (fun st => (exists s, snd st = INSERT s /\ i_id s = Default)
                    \/ (exists w, snd st = DELETE w)) script.



End Db.

(** ** The seed script *)

Module Seed.

Import Js.

Definition features_1 : Value := JObj [
  ("koi_prad", num 2.5); ("koi_depth", num 150); ("koi_period", num 45.3);
  ("koi_srad", num 1.2); ("koi_steff", num 5800); ("koi_smass", num 1.1);
  ("koi_slogg", num 4.3); ("koi_lum", num 0.1); ("koi_impact", num 0.6);
  ("koi_duration", num 3.5); ("koi_dor", num 22.5);
  ("koi_model_snr", num 25.0); ("koi_kepmag", num 14.2);
  ("koi_score", num 0.85)
]%string%Q.

Definition features_3 : Value := JObj [
  ("koi_prad", num 1.2); ("koi_depth", num 50); ("koi_period", num 12.5);
  ("koi_srad", num 0.9); ("koi_steff", num 5500); ("koi_smass", num 0.95);
  ("koi_slogg", num 4.5); ("koi_lum", num (-0.2)); ("koi_impact", num 0.3);
  ("koi_duration", num 2.8); ("koi_dor", num 15.0);
  ("koi_model_snr", num 18.5); ("koi_kepmag", num 13.8);
  ("koi_score", num 0.65)
]%string%Q.

Definition result_1 : Value := JObj [
  ("prediction", JStr "CONFIRMED");
  ("confidence", num 0.92);
  ("probabilities",
   JObj [("CONFIRMED", num 0.92); ("FALSE POSITIVE", num 0.08)])
]%string%Q.

Definition result_2 : Value := JObj [
  ("prediction", num 2.47);
  ("confidence_interval", JObj [("lower", num 2.15); ("upper", num 2.79)]);
  ("unit", JStr "Earth radii")
]%string%Q.

Definition result_3 : Value := JObj [
  ("prediction", JStr "FALSE POSITIVE");
  ("confidence", num 0.78);
  ("probabilities",
   JObj [("CONFIRMED", num 0.22); ("FALSE POSITIVE", num 0.78)])
]%string%Q.

Definition day : Z := 86400.

Definition sample (task : string) (features result : Value) (model : string)
  (at_ : Z) : Db.Insert := {|
  Db.i_id := Db.Default;
  Db.i_task_type := Db.Val task;
  Db.i_input_features := Db.Val features;
  Db.i_output_result := Db.Val result;
  Db.i_model_name := Db.Val model;
  Db.i_created_at := Db.Val at_
|}.

(** The three INSERT statements of seed_data.sql, run at time [now]. *)
Definition seed_data (now : Z) : list Db.Statement := [
  Db.INSERT (sample "classification" features_1 result_1
               "classification_pipeline_v1" (now - 1 * day));
  Db.INSERT (sample "regression" features_1 result_2
               "regression_pipeline_v1" (now - 2 * day));
  Db.INSERT (sample "classification" features_3 result_3
               "classification_pipeline_v1" (now - 3 * day))
]%string%Z.

Definition seeded (now : Z) : Db.Table :=
  Db.exec_all Db.empty (map (pair now) (seed_data now)).

(** The seed script, then every row deleted, then one more append. *)
Definition delete_all : list (Z * Db.Statement) := [(0%Z, Db.DELETE (fun _ => true))].

Definition append_again : list (Z * Db.Statement) :=
  [(0%Z, Db.INSERT (sample "regression" features_1 result_2
                   "regression_pipeline_v1" 0))].

End Seed.

(** ** The history page *)

Module History.

(** [a === s] for a string [s]. *)
Definition is_string (a : Js.Value) (s : string) : bool :=
  match a with
  | Js.JStr s' => String.eqb s' s
  | _ => false
  end.

(** The callback of [predictions.filter] for the selected [filter]; a
    record is the object the history endpoint returned. *)
Definition keeps (filter : string) (p : Js.Object Js.Value) : bool :=
  if String.eqb filter "all" then true
  else is_string (Js.prop (Js.JObj p) "task_type") filter.

(** [filteredPredictions]. *)
Definition filteredPredictions (filter : string)
  (predictions : list (Js.Object Js.Value)) : list (Js.Object Js.Value) :=
  List.filter (keeps filter) predictions.

(** Two history records, as the endpoint returns them. *)
Definition sample_history : list (Js.Object Js.Value) := [
  [("id", Js.num 2); ("task_type", Js.JStr "regression");
   ("output_result", Seed.result_2)];
  [("id", Js.num 1); ("task_type", Js.JStr "classification");
   ("output_result", Seed.result_1)]
]%string.

End History.

(** ** The result shaper (backend) *)

Module Shaper.

Inductive Label : Type := CONFIRMED | FALSE_POSITIVE.

(** The labels as the responses and the stored results spell them. *)
Definition label_name (l : Label) : string :=
  match l with
  | CONFIRMED => "CONFIRMED"
  | FALSE_POSITIVE => "FALSE POSITIVE"
  end.

(** Modelled from the spec: RawScores and the class-probability map of a
    PredictionResult (the backend schemas are not among the sources): a
    score per class. *)
Record Scores : Type := {
  confirmed : Q;
  false_positive : Q
}.

Definition score (s : Scores) (l : Label) : Q :=
  match l with
  | CONFIRMED => confirmed s
  | FALSE_POSITIVE => false_positive s
  end.

Definition total (s : Scores) : Q := confirmed s + false_positive s.

(** Modelled from the spec: the tolerance 1e-6 on the sum of the class
    probabilities (the backend shaper is not among the sources). *)
Definition tolerance : Q := 1 # 1000000.

Definition sums_to_one (s : Scores) : bool :=
  Qle_bool (Qabs (total s - 1)) tolerance.

(** Modelled from the spec: the two variants of PredictionResult (the
    backend schemas are not among the sources), with the fields the
    documented responses and the seeded rows carry. *)
Record Classification : Type := {
  label : Label;
  confidence : Q;
  class_probabilities : Scores
}.

Record Regression : Type := {
  point_estimate : Q;
  interval_lower : Q;
  interval_upper : Q;
  unit : string
}.

(** Modelled from the spec: the argmax of the Result Shaper
    (backend/app/utils.py and routes.py are not among the sources); on a
    tie the label that comes first alphabetically, CONFIRMED, wins. *)
Definition argmax (s : Scores) : Label :=
  if Qle_bool (false_positive s) (confirmed s) then CONFIRMED else FALSE_POSITIVE.

(** Modelled from the spec: the renormalisation of raw scores that do not
    sum to 1 within the tolerance (the backend shaper is not among the
    sources); [eps] bounds the sums taken as about zero, for which the
    shaper fails with DegenerateScores ([None]). *)
Definition normalize (eps : Q) (raw : Scores) : option Scores :=
  if sums_to_one raw then Some raw
  else if Qle_bool (Qabs (total raw)) eps then None
  else Some {| confirmed := confirmed raw / total raw;
               false_positive := false_positive raw / total raw |}.

(** Modelled from the spec: the classification branch of the Result Shaper
    (not among the sources): the label is the argmax class, the confidence
    the winning class's probability, the probabilities the normalised map. *)
Definition shape_classification (eps : Q) (raw : Scores) : option Classification :=
  match normalize eps raw with
  | Some p => Some {| label := argmax p;
                      confidence := score p (argmax p);
                      class_probabilities := p |}
  | None => None
  end.

(** Modelled from the spec: the regression branch of the Result Shaper
    (not among the sources): the 95% interval is the point estimate plus
    and minus 1.96 standard errors, the lower bound clipped at zero. *)
Definition shape_regression (point standard_error : Q) : Regression := {|
  point_estimate := point;
  interval_lower :=
    if Qle_bool 0 (point - 1.96 * standard_error)
    then point - 1.96 * standard_error else 0;
  interval_upper := point + 1.96 * standard_error;
  unit := "Earth radii"
|}.

(** The JSON of a result, with the keys of the documented responses and of
    the seeded rows, and its reading back. *)
Definition encode_classification (r : Classification) : Js.Value :=
  Js.JObj [
    ("prediction", Js.JStr (label_name (label r)));
    ("confidence", Js.num (confidence r));
    ("probabilities",
     Js.JObj [("CONFIRMED", Js.num (confirmed (class_probabilities r)));
              ("FALSE POSITIVE", Js.num (false_positive (class_probabilities r)))])
  ]%string.

Definition encode_regression (r : Regression) : Js.Value :=
  Js.JObj [
    ("prediction", Js.num (point_estimate r));
    ("confidence_interval",
     Js.JObj [("lower", Js.num (interval_lower r));
              ("upper", Js.num (interval_upper r))]);
    ("unit", Js.JStr (unit r))
  ]%string.

Definition finite_prop (v : Js.Value) (k : string) : option Q :=
  match Js.prop v k with
  | Js.JNum (Js.Fin q) => Some q
  | _ => None
  end.

Definition label_prop (v : Js.Value) (k : string) : option Label :=
  match Js.prop v k with
  | Js.JStr s =>
      if String.eqb s "CONFIRMED" then Some CONFIRMED
      else if String.eqb s "FALSE POSITIVE" then Some FALSE_POSITIVE
      else None
  | _ => None
  end.

Definition decode_classification (v : Js.Value) : option Classification :=
  match label_prop v "prediction", finite_prop v "confidence",
        finite_prop (Js.prop v "probabilities") "CONFIRMED",
        finite_prop (Js.prop v "probabilities") "FALSE POSITIVE" with
  | Some l, Some c, Some pc, Some pf =>
      Some {| label := l; confidence := c;
              class_probabilities := {| confirmed := pc; false_positive := pf |} |}
  | _, _, _, _ => None
  end.

Definition decode_regression (v : Js.Value) : option Regression :=
  match finite_prop v "prediction",
        finite_prop (Js.prop v "confidence_interval") "lower",
        finite_prop (Js.prop v "confidence_interval") "upper",
        Js.prop v "unit" with
  | Some p, Some lo, Some hi, Js.JStr u =>
      Some {| point_estimate := p; interval_lower := lo;
              interval_upper := hi; unit := u |}
  | _, _, _, _ => None
  end.

(** What is asked of a classification result: the probabilities sum to 1
    within the tolerance, the confidence is the probability of the label,
    and the label has the greatest probability, CONFIRMED on a tie. *)
Definition well_formed (r : Classification) : Prop :=
  Qabs (total (class_probabilities r) - 1) <= tolerance
  /\ confidence r == score (class_probabilities r) (label r)
  /\ (forall l, score (class_probabilities r) l
                <= score (class_probabilities r) (label r))
  /\ (confirmed (class_probabilities r) == false_positive (class_probabilities r)
      -> label r = CONFIRMED).

(** Raw scores that sum to 1.2. *)
Definition unnormalised_scores : Scores :=
  {| confirmed := 0.9; false_positive := 0.3 |}.

End Shaper.

(** ** The request pipeline (backend) *)

Module Backend.

(** Modelled from the spec: what the backend answers (its routes are not
    among the sources): a status and a JSON body, or the history records. *)
Inductive Reply : Type :=
| Reply_json (status : Z) (body : Js.Value)
| Reply_rows (status : Z) (records : list Db.Row).

(** The documented error body. *)
Definition detail (message : string) : Js.Value :=
  Js.JObj [("detail"%string, Js.JStr message)].

(** Modelled from the spec: the record handed to [append] (backend/app/
    crud.py is not among the sources): no id, the time left to the store. *)
Definition record_without_id (task : string) (features result : Js.Value)
  (model : string) : Db.Insert := {|
  Db.i_id := Db.Default;
  Db.i_task_type := Db.Val task;
  Db.i_input_features := Db.Val features;
  Db.i_output_result := Db.Val result;
  Db.i_model_name := Db.Val model;
  Db.i_created_at := Db.Default
|}.

(** Modelled from the spec: [append] of the History Store (backend/app/
    crud.py is not among the sources): best effort, a failed insert is not
    reported to the caller. *)
Definition append (now : Z) (t : Db.Table) (s : Db.Insert) : Db.Table :=
  fst (Db.insert now t s).

(** Modelled from the spec: the order of [list], most recent first and
    ties by the greater id (the backend query is not among the sources);
    a NULL time sorts as the most recent. *)
Definition more_recent (a b : Db.Row) : bool :=
  match Db.created_at a, Db.created_at b with
  | None, Some _ => true
  | Some _, None => false
  | Some x, Some y =>
      ((y <? x) || ((x =? y) && (Db.id b <? Db.id a)))%Z%bool
  | None, None => (Db.id b <? Db.id a)%Z
  end.

Fixpoint place (r : Db.Row) (sorted : list Db.Row) : list Db.Row :=
  match sorted with
  | [] => [r]
  | x :: rest => if more_recent r x then r :: sorted else x :: place r rest
  end.

(** Modelled from the spec: [list(limit, offset)] of the History Store
    (not among the sources): the limit is clamped to 200, an offset past
    the end gives the empty sequence. *)
Definition list_history (t : Db.Table) (limit offset : nat) : list Db.Row :=
  firstn (Nat.min limit 200)
    (skipn offset (fold_right place [] (Db.select t (fun _ => true)))).

(** A query parameter that is to be a natural number, [d] when absent. *)
Definition nat_param (params : Js.Object Js.Value) (k : string) (d : nat)
  : option nat :=
  match Js.get params k with
  | None => Some d
  | Some (Js.JNum (Js.Fin q)) =>
      if ((Zpos (Qden (Qred q)) =? 1) && (0 <=? Qnum (Qred q)))%Z%bool
      then Some (Z.to_nat (Qnum (Qred q))) else None
  | Some _ => None
  end.

Section Pipeline.

(** The collaborators the pipeline is given: what counts as a sum of about
    zero, the validator's verdict on a feature map, the two loaded
    artifacts (raw class scores; point estimate and standard error) and
    their descriptive metadata. *)
Variable eps : Q.
Variable validate : string -> Js.Value -> bool.
Variable classifier : Js.Value -> Shaper.Scores.
Variable regressor : Js.Value -> Q * Q.
Variable metadata : Js.Value.

(** Modelled from the spec: the Request Pipeline for one prediction request
    (backend/app/routes.py is not among the sources): validate, infer,
    shape, persist, respond; a rejected or failed request writes nothing. *)
Definition predict (now : Z) (t : Db.Table) (task : string)
  (features : Js.Value) : Db.Table * Reply :=
  if negb (validate task features) then
    (t, Reply_json 422 (detail "validation failed"))
  else if String.eqb task "classification" then
    match Shaper.shape_classification eps (classifier features) with
    | Some r =>
        let out := Shaper.encode_classification r in
        (append now t
           (record_without_id task features out "classification_pipeline_v1"),
         Reply_json 200 out)
    | None => (t, Reply_json 500 (detail "Internal Server Error"))
    end
  else if String.eqb task "regression" then
    let '(point, se) := regressor features in
    let out := Shaper.encode_regression (Shaper.shape_regression point se) in
    (append now t
       (record_without_id task features out "regression_pipeline_v1"),
     Reply_json 200 out)
  else (t, Reply_json 500 (detail "Internal Server Error")).

(** Modelled from the spec: the HTTP surface of the backend (not among the
    sources), for the requests the client can send. *)
Definition handle (now : Z) (t : Db.Table) (req : Api.Request)
  : Db.Table * Reply :=
  match req with
  | Api.Post url body =>
      if String.eqb url "/api/predict/classification"
      then predict now t "classification" (Js.prop body "features")
      else if String.eqb url "/api/predict/regression"
      then predict now t "regression" (Js.prop body "features")
      else (t, Reply_json 404 (detail "Not Found"))
  | Api.Get url params =>
      if String.eqb url "/api/predictions/history" then
        match nat_param params "limit" 50, nat_param params "offset" 0 with
        | Some limit, Some offset =>
            (t, Reply_rows 200 (list_history t limit offset))
        | _, _ => (t, Reply_json 422 (detail "validation failed"))
        end
      else if String.eqb url "/api/models/info" then
        (t, Reply_json 200 metadata)
      else if String.eqb url "/api/health" then
        (t, Reply_json 200
              (Js.JObj [("status", Js.JStr "ok"); ("version", Js.JStr "1.0.0");
                        ("timestamp", Js.num (inject_Z now))]%string))
      else (t, Reply_json 404 (detail "Not Found"))
  end.

(** A run of requests, each handled at its own time. *)
Fixpoint handle_all (t : Db.Table) (reqs : list (Z * Api.Request)) : Db.Table :=
  match reqs with
  | [] => t
  | (now, req) :: rest => handle_all (fst (handle now t req)) rest
  end.

End Pipeline.

End Backend.

(* ================================================================== *)
(** * Part II. Properties *)
(* ================================================================== *)

Unset Implicit Arguments.

(** Comparisons between rational constants. *)
Ltac closed_Q := unfold Qle, Qlt, Qeq; simpl; lia.

(** ** Objects *)

Section ObjectFacts.
Variable V : Type.
Implicit Types (o : Js.Object V) (k : string) (v : V).

Lemma get_set_same o k v : Js.get (Js.set o k v) k = Some v.
Proof.
  induction o as [|[k' v'] rest IH]; simpl.
  - now rewrite String.eqb_refl.
  - destruct (String.eqb k' k) eqn:E; simpl; rewrite E; auto.
Qed.

Lemma get_set_other o k k' v :
  k <> k' -> Js.get (Js.set o k v) k' = Js.get o k'.
Proof.
  intros Hne. induction o as [|[k0 v0] rest IH]; simpl.
  - destruct (String.eqb k k') eqn:E; auto.
    apply String.eqb_eq in E. contradiction.
  - destruct (String.eqb k0 k) eqn:E; simpl.
    + apply String.eqb_eq in E. subst k0.
      destruct (String.eqb k k') eqn:E'; auto.
      apply String.eqb_eq in E'. contradiction.
    + destruct (String.eqb k0 k'); auto.
Qed.

Lemma keys_set_present o k v :
  In k (Js.keys o) -> Js.keys (Js.set o k v) = Js.keys o.
Proof.
  induction o as [|[k' v'] rest IH]; simpl; intros Hin.
  - contradiction.
  - destruct (String.eqb k' k) eqn:E; simpl; auto.
    destruct Hin as [Heq|Hin].
    + subst. rewrite String.eqb_refl in E. discriminate.
    + f_equal. apply IH, Hin.
Qed.

Lemma keys_set_absent o k v :
  ~ In k (Js.keys o) -> Js.keys (Js.set o k v) = Js.keys o ++ [k].
Proof.
  induction o as [|[k' v'] rest IH]; simpl; intros Hnin; auto.
  destruct (String.eqb k' k) eqn:E; simpl.
  - apply String.eqb_eq in E. subst. tauto.
  - f_equal. apply IH. tauto.
Qed.

Lemma get_some_in_keys o k v : Js.get o k = Some v -> In k (Js.keys o).
Proof.
  induction o as [|[k' v'] rest IH]; simpl; intros H.
  - discriminate.
  - destruct (String.eqb k' k) eqn:E.
    + apply String.eqb_eq in E. auto.
    + right. apply IH, H.
Qed.

Lemma get_none_not_in_keys o k : Js.get o k = None -> ~ In k (Js.keys o).
Proof.
  induction o as [|[k' v'] rest IH]; simpl; intros H.
  - tauto.
  - destruct (String.eqb k' k) eqn:E; [discriminate|].
    apply String.eqb_neq in E. intros [Heq|Hin]; [tauto|].
    now apply IH.
Qed.


End ObjectFacts.

(** ** Numbers *)

Example parseFloat_decimal : Js.parseFloat (Js.JStr "2.5") = Js.Fin (5 # 2).
Proof. reflexivity. Qed.

Example parseFloat_prefix :
  Js.parseFloat (Js.JStr "  -12.50e-1xyz") = Js.Fin (-5 # 4).
Proof. reflexivity. Qed.

Example parseFloat_no_digits : Js.parseFloat (Js.JStr "abc") = Js.NaN.
Proof. reflexivity. Qed.

Example parseFloat_leading_dot : Js.parseFloat (Js.JStr ".5") = Js.Fin (1 # 2).
Proof. reflexivity. Qed.

Example parseFloat_trailing_dot : Js.parseFloat (Js.JStr "5.") = Js.Fin 5.
Proof. reflexivity. Qed.

Example parseFloat_dangling_exponent : Js.parseFloat (Js.JStr "1e") = Js.Fin 1.
Proof. reflexivity. Qed.

Example parseFloat_infinity : Js.parseFloat (Js.JStr "-Infinity") = Js.NegInf.
Proof. reflexivity. Qed.

Example parseFloat_empty : Js.parseFloat (Js.JStr "") = Js.NaN.
Proof. reflexivity. Qed.

Lemma lt_fin_false (x y : Q) : Js.lt (Js.Fin x) (Js.Fin y) = false -> y <= x.
Proof.
  unfold Js.lt, Js.Qltb. intros H.
  apply negb_false_iff in H. now apply Qle_bool_iff.
Qed.

Lemma lt_fin_true (x y : Q) : Js.lt (Js.Fin x) (Js.Fin y) = true -> x < y.
Proof.
  unfold Js.lt, Js.Qltb. intros H.
  apply negb_true_iff in H. apply Qnot_le_lt. intros Hle.
  apply Qle_bool_iff in Hle. congruence.
Qed.

Lemma lt_fin_iff (x y : Q) : Js.lt (Js.Fin x) (Js.Fin y) = true <-> x < y.
Proof.
  split; [apply lt_fin_true|].
  intros H. destruct (Js.lt (Js.Fin x) (Js.Fin y)) eqn:E; auto.
  apply lt_fin_false in E. exfalso. revert H. now apply Qle_not_lt.
Qed.

(** ** Validation *)

Section ValidationFacts.
Import Validation.

(** A rendered message is never the empty string, so the truthiness tests
    on an error are tests that there is one. *)
Lemma render_nonempty (show : Q -> string) (e : Error) :
  render show e <> EmptyString.
Proof.
  assert (Hnil : forall a b : string, (a ++ b)%string = EmptyString -> b = EmptyString).
  { intros a; induction a; simpl; intros b H; [exact H|discriminate]. }
  destruct e; simpl; try discriminate; intros H; apply Hnil in H; discriminate.
Qed.

(** What the loop of [validateAllFeatures] leaves under a key: the verdict
    of [validateFeature] for every entry it visited, untouched otherwise. *)
Lemma validate_each_get features config todo errs k :
  Js.get (validate_each features config todo errs) k =
  if existsb (String.eqb k) (map Spec.key todo)
  then match validateFeature k (read features k) config with
       | Some e => Some (Some e)
       | None => Js.get errs k
       end
  else Js.get errs k.
Proof.
  revert errs. induction todo as [|f rest IH]; intros errs; simpl; auto.
  destruct (String.eqb k (Spec.key f)) eqn:Ek; simpl.
  - apply String.eqb_eq in Ek. subst k.
    destruct (validateFeature (Spec.key f) (read features (Spec.key f)) config)
      as [e|] eqn:Ev; rewrite IH, ?Ev.
    + rewrite get_set_same. now destruct (existsb _ _).
    + now destruct (existsb _ _).
  - apply String.eqb_neq in Ek.
    destruct (validateFeature (Spec.key f) (read features (Spec.key f)) config)
      as [e|] eqn:Ev; rewrite IH; auto.
    rewrite get_set_other by congruence. reflexivity.
Qed.

Lemma validate_each_keys features config todo errs k :
  In k (Js.keys (validate_each features config todo errs)) ->
  In k (map Spec.key todo) \/ In k (Js.keys errs).
Proof.
  revert errs. induction todo as [|f rest IH]; intros errs; simpl; auto.
  destruct (validateFeature (Spec.key f) (read features (Spec.key f)) config);
    intros H; apply IH in H; destruct H as [H|H]; auto.
  destruct (in_dec string_dec (Spec.key f) (Js.keys errs)) as [Hin|Hnin].
  - rewrite keys_set_present in H by exact Hin. auto.
  - rewrite keys_set_absent in H by exact Hnin.
    apply in_app_or in H. destruct H as [H|[H|[]]]; auto.
Qed.

(** Every key of the error map is a key of the configuration. *)
Lemma validateAllFeatures_keys features config k :
  In k (Js.keys (validateAllFeatures features config)) ->
  In k (map Spec.key config).
Proof.
  intros H. apply validate_each_keys in H. destruct H as [H|[]]. exact H.
Qed.

Lemma existsb_eqb_in (k : string) (l : list string) :
  existsb (String.eqb k) l = true <-> In k l.
Proof.
  rewrite existsb_exists. split.
  - intros [x [Hin He]]. apply String.eqb_eq in He. now subst.
  - intros Hin. exists k. split; auto. apply String.eqb_refl.
Qed.

(** The error map has an entry for a configured key exactly when
    [validateFeature] rejects that key's value, and the entry is its message. *)
Lemma validateAllFeatures_get features config k :
  In k (map Spec.key config) ->
  Js.get (validateAllFeatures features config) k =
  option_map Some (validateFeature k (read features k) config).
Proof.
  intros Hin. unfold validateAllFeatures. rewrite validate_each_get.
  apply existsb_eqb_in in Hin. rewrite Hin.
  now destruct (validateFeature k (read features k) config).
Qed.

(** What an accepted value looks like: empty and not required, or a
    value whose [parseFloat] is a number that neither bound excludes. *)
Lemma validateFeature_accepts key value config f :
  find_feature config key = Some f ->
  validateFeature key value config = None ->
  (is_empty value = true /\ Js.truthy (Spec.required f) = false) \/
  (is_empty value = false /\
   Js.isNaN (Js.parseFloat value) = false /\
   (forall lo, Spec.min f = Some lo ->
               Js.lt (Js.parseFloat value) (Js.Fin lo) = false) /\
   (forall hi, Spec.max f = Some hi ->
               Js.gt (Js.parseFloat value) (Js.Fin hi) = false)).
Proof.
  unfold validateFeature. intros -> H.
  destruct (is_empty value).
  - left. destruct (Js.truthy (Spec.required f)); [discriminate|auto].
  - right. split; auto.
    destruct (Js.isNaN (Js.parseFloat value)); [discriminate|].
    split; auto. unfold check_min, check_max in H.
    destruct (Spec.min f) as [lo|], (Spec.max f) as [hi|];
      repeat match type of H with
      | (if ?c then _ else _) = None => destruct c eqn:?; [discriminate|]
      end;
      split; intros b Hb; inversion Hb; subst; assumption.
Qed.

(** With both bounds declared, an accepted non-empty value parses to a
    finite number inside them. *)
Lemma validateFeature_in_range key value config f lo hi :
  find_feature config key = Some f ->
  Spec.min f = Some lo -> Spec.max f = Some hi ->
  validateFeature key value config = None ->
  is_empty value = false ->
  exists q, Js.parseFloat value = Js.Fin q /\ lo <= q /\ q <= hi.
Proof.
  intros Hf Hlo Hhi Hv Hne.
  destruct (validateFeature_accepts _ _ _ _ Hf Hv) as [[He _]|[_ [Hnan [Hmin Hmax]]]].
  - congruence.
  - specialize (Hmin _ Hlo). specialize (Hmax _ Hhi). unfold Js.gt in Hmax.
    destruct (Js.parseFloat value) as [|q| |]; simpl in *; try discriminate.
    exists q. split; auto. split; apply lt_fin_false; assumption.
Qed.

(** Conversely a finite number inside the bounds is accepted. *)
Lemma validateFeature_accepts_in_range key config f lo hi q :
  find_feature config key = Some f ->
  Spec.min f = Some lo -> Spec.max f = Some hi ->
  lo <= q -> q <= hi ->
  validateFeature key (Js.num q) config = None.
Proof.
  intros Hf Hlo Hhi H1 H2.
  assert (E1 : Js.lt (Js.Fin q) (Js.Fin lo) = false).
  { destruct (Js.lt (Js.Fin q) (Js.Fin lo)) eqn:E; auto.
    apply lt_fin_true in E. exfalso. revert E. now apply Qle_not_lt. }
  assert (E2 : Js.gt (Js.Fin q) (Js.Fin hi) = false).
  { unfold Js.gt. destruct (Js.lt (Js.Fin hi) (Js.Fin q)) eqn:E; auto.
    apply lt_fin_true in E. exfalso. revert E. now apply Qle_not_lt. }
  unfold validateFeature, check_min, check_max. rewrite Hf.
  cbn [Js.num is_empty Js.parseFloat Js.isNaN].
  now rewrite Hlo, E1, Hhi, E2.
Qed.

(** A key the configuration does not list is reported by [validateFeature]. *)
Lemma validateFeature_unknown key value config :
  ~ In key (map Spec.key config) ->
  validateFeature key value config = Some (UnknownFeature key).
Proof.
  intros Hnin. unfold validateFeature, find_feature.
  destruct (find _ config) as [f|] eqn:E; auto.
  apply find_some in E. destruct E as [Hin He].
  apply String.eqb_eq in He. exfalso. apply Hnin. subst key.
  now apply in_map.
Qed.

Example validateFeature_too_large :
  validateFeature "koi_prad" (Js.JStr "999999") InputForm.FEATURE_CONFIG
  = Some (MustBeAtMost "Planetary Radius" 30).
Proof. reflexivity. Qed.

Example validateFeature_too_small :
  validateFeature "koi_lum" (Js.JStr "-3.5") InputForm.FEATURE_CONFIG
  = Some (MustBeAtLeast "Luminosity" (-3)).
Proof. reflexivity. Qed.

Example validateFeature_not_a_number :
  validateFeature "koi_prad" (Js.JStr "abc") InputForm.FEATURE_CONFIG
  = Some (MustBeNumber "Planetary Radius").
Proof. reflexivity. Qed.

(** No entry of the configuration is required: an emptied input passes. *)
Example validateFeature_empty :
  validateFeature "koi_prad" (Js.JStr "") InputForm.FEATURE_CONFIG = None.
Proof. reflexivity. Qed.

End ValidationFacts.

(** ** The feature configuration *)

Section ConfigFacts.
Import InputForm.

Lemma NoDup_by_nodup (l : list string) : nodup string_dec l = l -> NoDup l.
Proof. intros H. rewrite <- H. apply NoDup_nodup. Qed.

Lemma FEATURE_CONFIG_keys_NoDup : NoDup (map Spec.key FEATURE_CONFIG).
Proof. apply NoDup_by_nodup. reflexivity. Qed.

Lemma FEATURE_CONFIG_restyled_keys :
  map Spec.key FEATURE_CONFIG_restyled = map Spec.key FEATURE_CONFIG.
Proof. reflexivity. Qed.

(** Each entry is the one [find] returns for its key. *)
Lemma FEATURE_CONFIG_find :
  Forall (fun f => Validation.find_feature FEATURE_CONFIG (Spec.key f) = Some f)
         FEATURE_CONFIG.
Proof. repeat constructor. Qed.

Lemma FEATURE_CONFIG_bounds :
  Forall (fun f => exists lo hi,
            Spec.min f = Some lo /\ Spec.max f = Some hi /\ lo <= hi)
         FEATURE_CONFIG.
Proof.
  unfold FEATURE_CONFIG.
  repeat (apply Forall_cons;
          [eexists; eexists; split; [reflexivity|split; [reflexivity|closed_Q]]|]).
  apply Forall_nil.
Qed.


(** The defaults pass validation. *)
Lemma initial_valid :
  Validation.validateAllFeatures (features initial) FEATURE_CONFIG = [].
Proof. reflexivity. Qed.

(** C9. Every entry of FEATURE_CONFIG (in both versions of the form) has
    its minimum at most its maximum, and no two entries share a key. *)
Theorem feature_config_bounds_ordered_keys_unique :
  Forall (fun f => exists lo hi,
            Spec.min f = Some lo /\ Spec.max f = Some hi /\ lo <= hi)
         FEATURE_CONFIG
  /\ NoDup (map Spec.key FEATURE_CONFIG)
  /\ Forall (fun f => exists lo hi,
               Spec.min f = Some lo /\ Spec.max f = Some hi /\ lo <= hi)
            FEATURE_CONFIG_restyled
  /\ NoDup (map Spec.key FEATURE_CONFIG_restyled).
Proof.
  split; [exact FEATURE_CONFIG_bounds|].
  split; [exact FEATURE_CONFIG_keys_NoDup|].
  split.
  - unfold FEATURE_CONFIG_restyled, FEATURE_CONFIG. simpl.
    repeat (apply Forall_cons;
            [eexists; eexists; split; [reflexivity|split; [reflexivity|closed_Q]]|]).
    apply Forall_nil.
  - rewrite FEATURE_CONFIG_restyled_keys. exact FEATURE_CONFIG_keys_NoDup.
Qed.

End ConfigFacts.

(** ** Submitting the form *)

Section SubmitFacts.
Import Validation InputForm.

Lemma handleSubmit_errors st :
  errors (fst (handleSubmit st)) = validateAllFeatures (features st) FEATURE_CONFIG.
Proof. reflexivity. Qed.

Lemma handleSubmit_features st : features (fst (handleSubmit st)) = features st.
Proof. reflexivity. Qed.

Lemma handleSubmit_calls_invalid st :
  validateAllFeatures (features st) FEATURE_CONFIG <> [] ->
  snd (handleSubmit st) = [].
Proof.
  intros H. unfold handleSubmit. simpl.
  destruct (validateAllFeatures (features st) FEATURE_CONFIG); [congruence|reflexivity].
Qed.

Lemma handleSubmit_calls_valid st :
  validateAllFeatures (features st) FEATURE_CONFIG = [] ->
  snd (handleSubmit st) = [features st].
Proof. intros H. unfold handleSubmit. simpl. now rewrite H. Qed.

(** [onSubmit] is called at most once, with the features as they are, and
    only for features that pass validation. *)
Lemma handleSubmit_call_inv st submitted :
  In submitted (snd (handleSubmit st)) ->
  submitted = features st /\
  validateAllFeatures (features st) FEATURE_CONFIG = [].
Proof.
  destruct (validateAllFeatures (features st) FEATURE_CONFIG) eqn:E.
  - rewrite handleSubmit_calls_valid by exact E. intros [<-|[]]. auto.
  - rewrite handleSubmit_calls_invalid by (rewrite E; discriminate). intros [].
Qed.

(** C1. When validation of the form's features yields at least one field
    error, the submit handler stores the full error map (an entry for
    every configured field that fails) and makes no call to onSubmit, so
    the page sends no prediction request: nothing reaches inference or the
    history. onSubmit is called only when the error map is empty. *)
Theorem invalid_submit_sends_nothing (st : State) (taskType : string) :
  validateAllFeatures (features st) FEATURE_CONFIG <> [] ->
  errors (fst (handleSubmit st)) = validateAllFeatures (features st) FEATURE_CONFIG
  /\ Forall (fun f =>
       Js.get (errors (fst (handleSubmit st))) (Spec.key f) =
       option_map Some
         (validateFeature (Spec.key f) (read (features st) (Spec.key f))
            FEATURE_CONFIG))
     FEATURE_CONFIG
  /\ snd (handleSubmit st) = []
  /\ Home.requests_of_submit taskType st = [].
Proof.
  intros Herr. split; [reflexivity|]. split.
  - rewrite handleSubmit_errors. apply Forall_forall. intros f Hf.
    apply validateAllFeatures_get. now apply in_map.
  - pose proof (handleSubmit_calls_invalid st Herr) as Hcalls.
    unfold Home.requests_of_submit. rewrite Hcalls. simpl. auto.
Qed.

(** Conversely a submit of valid features sends exactly one request, to
    the endpoint of the selected task, with the features as they are. *)
Lemma valid_submit_sends_one_request (st : State) (taskType : string) :
  validateAllFeatures (features st) FEATURE_CONFIG = [] ->
  Home.requests_of_submit taskType st = [Home.request taskType (features st)].
Proof.
  intros H. unfold Home.requests_of_submit.
  now rewrite (handleSubmit_calls_valid st H).
Qed.

End SubmitFacts.


Lemma invalid_submit_sends_nothing_witness :
  Validation.validateAllFeatures
    (InputForm.features InputForm.out_of_range_form)
    InputForm.FEATURE_CONFIG <> []
  /\ snd (InputForm.handleSubmit InputForm.out_of_range_form) = []
  /\ Home.requests_of_submit "classification" InputForm.out_of_range_form = [].
Proof.
  assert (H : Validation.validateAllFeatures
                (InputForm.features InputForm.out_of_range_form)
                InputForm.FEATURE_CONFIG <> []) by (vm_compute; discriminate).
  pose proof (invalid_submit_sends_nothing InputForm.out_of_range_form
                "classification" H) as W.
  split; [exact H|]. split; [exact (proj1 (proj2 (proj2 W)))|].
  exact (proj2 (proj2 (proj2 W))).
Defined.

(** ** What the form submits *)

Section FormFacts.
Import Validation InputForm.


Lemma held_keys o config : Forall2 held o config -> Js.keys o = map Spec.key config.
Proof.
  induction 1 as [|kv f o' c' [Hk _] _ IH]; simpl; auto.
  now rewrite Hk, IH.
Qed.

Lemma fold_defaults_held config acc0 done :
  Forall2 held acc0 done ->
  NoDup (map Spec.key (done ++ config)) ->
  Forall2 held
    (fold_left (fun acc f => Js.set acc (Spec.key f) (Spec.default f)) config acc0)
    (done ++ config).
Proof.
  revert acc0 done. induction config as [|f rest IH]; intros acc0 done H Hnd; simpl.
  - now rewrite app_nil_r.
  - replace (done ++ f :: rest) with ((done ++ [f]) ++ rest)
      by (now rewrite <- app_assoc).
    apply IH.
    + assert (Hnin : ~ In (Spec.key f) (Js.keys acc0)).
      { rewrite (held_keys _ _ H). rewrite map_app in Hnd. simpl in Hnd.
        apply NoDup_remove_2 in Hnd. intros Hin. apply Hnd.
        apply in_or_app. now left. }
      clear Hnd IH. induction H as [|kv g o' c' Hh Hrest IHf]; simpl.
      * constructor; [|constructor]. split; [reflexivity|now left].
      * destruct kv as [k v]. simpl in Hnin.
        destruct (String.eqb k (Spec.key f)) eqn:E.
        -- apply String.eqb_eq in E. tauto.
        -- constructor; [exact Hh|]. apply IHf. tauto.
    + now rewrite <- app_assoc.
Qed.

Lemma initial_shape : form_shape (features initial).
Proof.
  apply (fold_defaults_held FEATURE_CONFIG [] []).
  - constructor.
  - apply FEATURE_CONFIG_keys_NoDup.
Qed.

(** Typing into a configured input replaces that entry's value in place. *)
Lemma set_text_held o config f text :
  Forall2 held o config -> In f config ->
  Forall2 held (Js.set o (Spec.key f) (Js.JStr text)) config.
Proof.
  induction 1 as [|[k v] g o' c' [Hk Hv] Hrest IH]; simpl; intros Hin.
  - contradiction.
  - simpl in Hk. destruct (String.eqb k (Spec.key f)) eqn:E.
    + constructor; auto. split; simpl; eauto.
    + constructor; [split; auto|]. apply IH.
      destruct Hin as [->|Hin]; auto.
      subst k. rewrite String.eqb_refl in E. discriminate.
Qed.

Lemma step_shape st ev :
  wired ev -> form_shape (features st) -> form_shape (features (fst (step st ev))).
Proof.
  destruct ev as [f text|f|]; simpl; intros Hw Hs; auto.
  now apply set_text_held.
Qed.

(** Every call a run of events makes to [onSubmit] passes features of the
    form's shape that validation accepted. *)
Lemma run_calls st evs :
  Forall wired evs -> form_shape (features st) ->
  form_shape (features (fst (run st evs))) /\
  Forall (fun submitted =>
            form_shape submitted /\
            validateAllFeatures submitted FEATURE_CONFIG = [])
         (snd (run st evs)).
Proof.
  intros Hw. revert st. induction Hw as [|ev rest Hev Hrest IH]; intros st Hs; simpl.
  - split; auto.
  - pose proof (step_shape st ev Hev Hs) as Hs1.
    destruct (step st ev) as [st1 calls1] eqn:Es. simpl in Hs1.
    destruct (IH st1 Hs1) as [Hs2 Hc2].
    destruct (run st1 rest) as [st2 calls2]. simpl in *.
    split; auto. apply Forall_app. split; auto.
    destruct ev as [f text|f|]; simpl in Es; inversion Es; subst; auto.
    apply Forall_forall. intros submitted Hin.
    apply handleSubmit_call_inv in Hin. destruct Hin as [-> Hv]. auto.
Qed.

Lemma get_of_NoDup (V : Type) (o : Js.Object V) k v :
  NoDup (Js.keys o) -> In (k, v) o -> Js.get o k = Some v.
Proof.
  induction o as [|[k' v'] rest IH]; simpl; intros Hnd Hin.
  - contradiction.
  - inversion Hnd as [|? ? Hnin Hnd']; subst.
    destruct Hin as [Heq|Hin].
    + inversion Heq; subst. now rewrite String.eqb_refl.
    + destruct (String.eqb k' k) eqn:E.
      * apply String.eqb_eq in E. subst k'. exfalso. apply Hnin.
        change k with (fst (k, v)). now apply in_map.
      * now apply IH.
Qed.

Lemma Forall2_pointwise (A B : Type) (P R : A -> B -> Prop) l l' :
  Forall2 P l l' ->
  (forall a b, In a l -> In b l' -> P a b -> R a b) ->
  Forall2 R l l'.
Proof.
  induction 1 as [|a b l l' Hab Hrest IH]; intros Hall; constructor.
  - apply Hall; simpl; auto.
  - apply IH. intros a' b' Ha Hb. apply Hall; simpl; auto.
Qed.


Lemma accepted_entries o :
  form_shape o -> validateAllFeatures o FEATURE_CONFIG = [] ->
  Forall2 acceptable o FEATURE_CONFIG.
Proof.
  intros Hs Hv.
  assert (Hnd : NoDup (Js.keys o)).
  { rewrite (held_keys _ _ Hs). apply FEATURE_CONFIG_keys_NoDup. }
  assert (Hall : forall kv f, In kv o -> In f FEATURE_CONFIG ->
                              fst kv = Spec.key f -> acceptable kv f).
  { intros [k v] f Hin Hf Hk. simpl in Hk. subst k.
    pose proof (validateAllFeatures_get o FEATURE_CONFIG (Spec.key f)
                  (in_map Spec.key _ _ Hf)) as Hg.
    rewrite Hv in Hg. simpl in Hg.
    unfold read in Hg. rewrite (get_of_NoDup _ _ _ _ Hnd Hin) in Hg.
    destruct (validateFeature (Spec.key f) v FEATURE_CONFIG) eqn:Ev;
      [discriminate|].
    pose proof (proj1 (Forall_forall _ _) FEATURE_CONFIG_find f Hf) as Hfind.
    destruct (proj1 (Forall_forall _ _) FEATURE_CONFIG_bounds f Hf)
      as [lo [hi [Hlo [Hhi _]]]].
    unfold acceptable. simpl.
    destruct (is_empty v) eqn:Ee; [now left|right].
    destruct (validateFeature_in_range _ _ _ _ _ _ Hfind Hlo Hhi Ev Ee)
      as [q [Hp [H1 H2]]].
    exists q, lo, hi. auto. }
  apply (Forall2_pointwise _ _ held); auto.
  intros kv f Hin Hf [Hk _]. now apply Hall.
Qed.

End FormFacts.

Section SubmittedValues.
Import Validation InputForm.


(** C4, as stated, fails: after typing 2.5 into the koi_prad input the
    features pass validation and the one call to onSubmit carries the raw
    string "2.5" under koi_prad, not a number. *)
Lemma submitted_value_is_the_raw_string :
  Forall wired typed_events
  /\ exists submitted,
       snd (run initial typed_events) = [submitted]
       /\ validateAllFeatures submitted FEATURE_CONFIG = []
       /\ Js.get submitted "koi_prad" = Some (Js.JStr "2.5")
       /\ ~ (exists n, Js.get submitted "koi_prad" = Some (Js.JNum n)).
Proof.
  split.
  - repeat constructor.
  - eexists. split; [reflexivity|]. split; [reflexivity|].
    split; [reflexivity|]. intros [n Hn]. discriminate Hn.
Qed.

(** C4, amended. Every map the form passes to onSubmit, after any events
    on its inputs, has passed validation, has exactly the configured keys
    in the configured order, and holds each value as the form stores it,
    not coerced: the configured default (a number) or the string typed
    into the input; that value is empty or has a parseFloat inside the
    bounds of its entry. Validation checks every field on its own: the
    error map of any features has, for each configured key, exactly the
    verdict of validateFeature on that key. *)
Theorem form_submits_validated_raw_values (evs : list Event) :
  Forall wired evs ->
  Forall (fun submitted =>
            validateAllFeatures submitted FEATURE_CONFIG = []
            /\ Js.keys submitted = map Spec.key FEATURE_CONFIG
            /\ Forall2 held submitted FEATURE_CONFIG
            /\ Forall2 acceptable submitted FEATURE_CONFIG)
         (snd (run initial evs))
  /\ forall features,
       Forall (fun f =>
                 Js.get (validateAllFeatures features FEATURE_CONFIG) (Spec.key f) =
                 option_map Some
                   (validateFeature (Spec.key f) (read features (Spec.key f))
                      FEATURE_CONFIG))
              FEATURE_CONFIG.
Proof.
  intros Hw. split.
  - destruct (run_calls initial evs Hw initial_shape) as [_ Hc].
    eapply Forall_impl; [|exact Hc].
    intros submitted [Hs Hv]. split; auto. split.
    + now apply held_keys.
    + split; auto. now apply accepted_entries.
  - intros features. apply Forall_forall. intros f Hf.
    apply validateAllFeatures_get. now apply in_map.
Qed.

Lemma form_submits_validated_raw_values_witness :
  Forall wired typed_events
  /\ Forall (fun submitted =>
               validateAllFeatures submitted FEATURE_CONFIG = []
               /\ Js.keys submitted = map Spec.key FEATURE_CONFIG
               /\ Forall2 held submitted FEATURE_CONFIG
               /\ Forall2 acceptable submitted FEATURE_CONFIG)
            (snd (run initial typed_events)).
Proof.
  assert (H : Forall wired typed_events).
  { unfold typed_events, FEATURE_CONFIG.
    apply Forall_cons; [simpl; auto|]. apply Forall_cons; [exact I|].
    apply Forall_nil. }
  split; [exact H|].
  exact (proj1 (form_submits_validated_raw_values typed_events H)).
Defined.

(** An unlisted key of the features has no part in the validation. *)
Lemma read_set_other features k v k' :
  k <> k' -> read (Js.set features k v) k' = read features k'.
Proof. intros H. unfold read. now rewrite get_set_other. Qed.

Lemma validate_each_ignores features config todo errs k v :
  ~ In k (map Spec.key todo) ->
  validate_each (Js.set features k v) config todo errs =
  validate_each features config todo errs.
Proof.
  revert errs. induction todo as [|f rest IH]; intros errs Hnin; simpl; auto.
  simpl in Hnin. rewrite read_set_other by intuition congruence.
  destruct (validateFeature (Spec.key f) (read features (Spec.key f)) config);
    apply IH; tauto.
Qed.

End SubmittedValues.

(** ** Keys outside the schema *)


Section UnknownKeys.
Import Validation InputForm.


(** C5, as stated, fails: features with a key that FEATURE_CONFIG does not
    list pass validation with an empty error map and are handed to onSubmit
    with that key still in them; and the form's own features, with the
    koi_qof key that the documented feature table lacks, are submitted
    without any error. *)
Lemma unlisted_key_is_not_rejected :
  ~ In "koi_unlisted"%string (map Spec.key FEATURE_CONFIG)
  /\ In "koi_unlisted"%string (Js.keys (features with_unlisted_key))
  /\ validateAllFeatures (features with_unlisted_key) FEATURE_CONFIG = []
  /\ snd (handleSubmit with_unlisted_key) = [features with_unlisted_key]
  /\ ~ In "koi_qof"%string ApiDocs.documented_features
  /\ In "koi_qof"%string (Js.keys (features initial))
  /\ validateAllFeatures (features initial) FEATURE_CONFIG = []
  /\ snd (handleSubmit initial) = [features initial].
Proof.
  assert (Hdec : forall (k : string) l,
             (if in_dec string_dec k l then true else false) = false -> ~ In k l).
  { intros k l H Hin. destruct (in_dec string_dec k l); [discriminate|tauto]. }
  split; [apply Hdec; reflexivity|].
  split; [vm_compute; tauto|].
  split; [reflexivity|]. split; [reflexivity|].
  split; [apply Hdec; reflexivity|].
  split; [vm_compute; tauto|].
  split; reflexivity.
Qed.

(** C5, amended. validateAllFeatures looks only at the keys of the
    configuration it is given: a key of the features that the
    configuration does not list changes nothing in the error map and gets
    no entry in it; every key of the error map is a configured key; the
    submit handler passes accepted features to onSubmit unchanged, the
    unlisted key included. Only validateFeature, called on such a key
    itself, answers "Unknown feature: <key>". *)
Theorem unlisted_key_is_ignored_by_validation
  (features : Js.Object Js.Value) (config : list Spec.t)
  (k : string) (v : Js.Value) :
  ~ In k (map Spec.key config) ->
  validateAllFeatures (Js.set features k v) config =
    validateAllFeatures features config
  /\ ~ In k (Js.keys (validateAllFeatures (Js.set features k v) config))
  /\ validateFeature k v config = Some (UnknownFeature k)
  /\ forall st : State,
       validateAllFeatures (InputForm.features st) FEATURE_CONFIG = [] ->
       snd (handleSubmit st) = [InputForm.features st].
Proof.
  intros Hnin. split; [now apply validate_each_ignores|].
  split.
  - intros Hin. apply validateAllFeatures_keys in Hin. contradiction.
  - split; [now apply validateFeature_unknown|].
    intros st. apply handleSubmit_calls_valid.
Qed.

Lemma unlisted_key_is_ignored_by_validation_witness :
  ~ In "koi_unlisted"%string (map Spec.key FEATURE_CONFIG)
  /\ validateAllFeatures (features with_unlisted_key) FEATURE_CONFIG =
     validateAllFeatures (features initial) FEATURE_CONFIG.
Proof.
  assert (H : ~ In "koi_unlisted"%string (map Spec.key FEATURE_CONFIG)).
  { intros Hin. vm_compute in Hin.
    repeat (destruct Hin as [Hin|Hin]; [discriminate Hin|]). exact Hin. }
  split; [exact H|].
  exact (proj1 (unlisted_key_is_ignored_by_validation (features initial)
                  FEATURE_CONFIG "koi_unlisted" (Js.num 1) H)).
Defined.

End UnknownKeys.

(** ** The error interceptor *)

Section InterceptorFacts.
Import Api.
Variable show : Q -> string.






(** The value handed to [new Error] is never falsy. *)
Lemma chosen_message_truthy error : Js.truthy (chosen_message error) = true.
Proof.
  unfold chosen_message, Js.or.
  destruct (Js.truthy (response_detail error)) eqn:E1; rewrite ?E1; auto.
  destruct (Js.truthy (response_message error)) eqn:E2; rewrite ?E2; auto.
  destruct (Js.truthy (transport_message error)) eqn:E3; rewrite ?E3; auto.
Qed.


End InterceptorFacts.



(** ** Regression intervals *)

Section RegressionFacts.
Import Charts.




(** The interval the shaper builds from a non-negative point estimate and
    standard error brackets the estimate and starts at zero or above. *)
Lemma shape_regression_brackets (point se : Q) :
  0 <= point -> 0 <= se ->
  0 <= Shaper.interval_lower (Shaper.shape_regression point se)
  /\ Shaper.interval_lower (Shaper.shape_regression point se) <= point
  /\ point <= Shaper.interval_upper (Shaper.shape_regression point se)
  /\ Shaper.interval_upper (Shaper.shape_regression point se)
     == point + 1.96 * se
  /\ (Shaper.interval_lower (Shaper.shape_regression point se)
      == point - 1.96 * se
      \/ (point - 1.96 * se < 0
          /\ Shaper.interval_lower (Shaper.shape_regression point se) == 0)).
Proof.
  intros Hp Hse. unfold Shaper.shape_regression. simpl.
  assert (Hm : 0 <= 1.96 * se) by (apply Qmult_le_0_compat; [discriminate|exact Hse]).
  destruct (Qle_bool 0 (point - 1.96 * se)) eqn:E.
  - apply Qle_bool_iff in E. repeat split; lra.
  - assert (Hneg : point - 1.96 * se < 0).
    { apply Qnot_le_lt. intros H. apply Qle_bool_iff in H. congruence. }
    repeat split; lra.
Qed.

Lemma seeded_rows (now : Z) :
  map Db.output_result (Db.rows (Seed.seeded now))
  = [Seed.result_1; Seed.result_2; Seed.result_3]
  /\ map Db.task_type (Db.rows (Seed.seeded now))
     = ["classification"; "regression"; "classification"]%string
  /\ map Db.id (Db.rows (Seed.seeded now)) = [1; 2; 3]%Z.
Proof. repeat split. Qed.



End RegressionFacts.

(** ** The predictions table *)

Section TableFacts.
Import Db.

Lemma has_id_false_iff v rs : has_id v rs = false <-> ~ In v (map id rs).
Proof.
  unfold has_id. induction rs as [|r rest IH]; simpl.
  - tauto.
  - rewrite orb_false_iff, IH, Z.eqb_neq. intuition congruence.
Qed.

Lemma unique_ids_NoDup rs : unique_ids rs = true -> NoDup (map id rs).
Proof.
  induction rs as [|r rest IH]; simpl; intros H.
  - constructor.
  - apply andb_true_iff in H. destruct H as [H1 H2].
    apply negb_true_iff, has_id_false_iff in H1. constructor; auto.
Qed.

Lemma task_type_check_iff s :
  task_type_check s = true <->
  s = "classification"%string \/ s = "regression"%string.
Proof.
  unfold task_type_check. rewrite orb_true_iff, !String.eqb_eq. tauto.
Qed.

Lemma substring_length n s :
  (n <= String.length s)%nat -> String.length (substring 0 n s) = n.
Proof.
  revert s. induction n as [|n IH]; intros s H.
  - now destruct s.
  - destruct s as [|c s]; simpl in *; [lia|]. rewrite IH; lia.
Qed.

(** What passes the column constraints on [task_type]. *)
Lemma task_type_column ty ty' :
  (ty0 <- varchar 50 "task_type" ty ;; check_task_type ty0) = Ok ty' ->
  ty' = ty /\ task_type_check ty = true.
Proof.
  unfold varchar, check_task_type, bind.
  destruct (Nat.leb (String.length ty) 50) eqn:El.
  - destruct (task_type_check ty) eqn:Ec; intros H; inversion H; auto.
  - apply Nat.leb_gt in El.
    destruct (all_spaces _); [|discriminate].
    destruct (task_type_check (substring 0 50 ty)) eqn:Ec; [|discriminate].
    apply task_type_check_iff in Ec.
    assert (Hlen : String.length (substring 0 50 ty) = 50%nat)
      by (apply substring_length; lia).
    destruct Ec as [Ec|Ec]; rewrite Ec in Hlen; discriminate Hlen.
Qed.

Lemma build_row_ok now new_id s row :
  build_row now new_id s = Ok row ->
  id row = new_id
  /\ task_type_check (task_type row) = true
  /\ i_task_type s = Val (task_type row)
  /\ i_input_features s = Val (input_features row)
  /\ i_output_result s = Val (output_result row).
Proof.
  unfold build_row.
  destruct (i_task_type s) as [| |ty]; simpl; try discriminate.
  destruct (varchar 50 "task_type" ty) as [ty1|] eqn:E1; simpl; try discriminate.
  destruct (check_task_type ty1) as [ty2|] eqn:E2; simpl; try discriminate.
  assert (Hty : ty2 = ty /\ task_type_check ty = true).
  { apply task_type_column. rewrite E1. simpl. exact E2. }
  destruct Hty as [-> Hc].
  destruct (i_input_features s) as [| |inp]; simpl; try discriminate.
  destruct (i_output_result s) as [| |out]; simpl; try discriminate.
  destruct (i_model_name s) as [| |mn]; simpl; try discriminate.
  destruct (varchar 100 "model_name" mn) as [mn1|]; simpl; try discriminate.
  intros H. inversion H; subst; simpl. auto.
Qed.

Lemma eval_id_last last c :
  (last <= fst (eval_id last c) <= last + 1)%Z
  /\ (forall v, snd (eval_id last c) = Ok v -> c = Default ->
        v = (last + 1)%Z /\ fst (eval_id last c) = (last + 1)%Z).
Proof.
  destruct c as [| |v0]; simpl.
  - unfold nextval. destruct (last <? int4_max)%Z eqn:E; simpl.
    + split; [lia|]. intros v H. inversion H; subst. auto.
    + split; [lia|]. intros v H. discriminate.
  - split; [lia|]. intros v H. discriminate.
  - split; [lia|]. intros v _ Hd. discriminate.
Qed.

(** An INSERT either fails and leaves the rows as they are, or appends one
    row that meets the constraints. *)
Lemma insert_cases now t s :
  (last_value t <= last_value (fst (insert now t s)) <= last_value t + 1)%Z
  /\ ((exists e, snd (insert now t s) = Err e
                 /\ rows (fst (insert now t s)) = rows t)
      \/ (exists row, snd (insert now t s) = Ok row
            /\ rows (fst (insert now t s)) = rows t ++ [row]
            /\ ~ In (id row) (map id (rows t))
            /\ task_type_check (task_type row) = true
            /\ i_task_type s = Val (task_type row)
            /\ i_output_result s = Val (output_result row)
            /\ (i_id s = Default ->
                id row = (last_value t + 1)%Z
                /\ last_value (fst (insert now t s)) = (last_value t + 1)%Z))).
Proof.
  unfold insert.
  destruct (eval_id_last (last_value t) (i_id s)) as [Hlast Hid].
  destruct (eval_id (last_value t) (i_id s)) as [last rid]. simpl in Hlast, Hid.
  match goal with
  | |- context [match ?r with Ok _ => _ | Err _ => _ end] =>
      destruct r as [row|e] eqn:Er
  end; simpl; (split; [exact Hlast|]).
  - right. exists row.
    destruct rid as [new_id|e]; simpl in Er; [|discriminate].
    destruct (build_row now new_id s) as [row0|e] eqn:Eb; simpl in Er;
      [|discriminate].
    destruct (build_row_ok _ _ _ _ Eb) as [Hi [Hc [Ht [_ Ho]]]].
    unfold with_check, primary_key in Er. simpl in Er.
    destruct (has_id (id row0) (rows t)) eqn:Eh; inversion Er; subst row0.
    apply has_id_false_iff in Eh.
    split; [reflexivity|]. split; [reflexivity|].
    split; [exact Eh|]. split; [exact Hc|]. split; [exact Ht|].
    split; [exact Ho|]. intros Hdef.
    destruct (Hid new_id eq_refl Hdef) as [H1 H2]. split; congruence.
  - left. exists e. auto.
Qed.

Lemma update_rows_check now where_ assign last rs last' rs' :
  update_rows now where_ assign last rs = (last', Ok rs') ->
  Forall (fun r => task_type_check (task_type r) = true) rs ->
  Forall (fun r => task_type_check (task_type r) = true) rs'.
Proof.
  revert last last' rs'. induction rs as [|r rest IH]; intros last last' rs' H Hall.
  - simpl in H. inversion H. constructor.
  - inversion Hall as [|? ? Hr Hrest]; subst. cbn [update_rows] in H.
    destruct (where_ r && permitted ForUpdate r)%bool.
    + destruct (eval_id last (i_id (rewrite_row r (assign r)))) as [last1 rid].
      destruct rid as [new_id|e]; cbn [bind] in H; [|inversion H].
      destruct (build_row now new_id (rewrite_row r (assign r))) as [row|e] eqn:Eb;
        cbn [bind] in H; [|inversion H].
      destruct (with_check ForUpdate row) as [row1|e] eqn:Ew; [|inversion H].
      assert (row1 = row) by (unfold with_check in Ew; simpl in Ew; congruence).
      subst row1.
      destruct (update_rows now where_ assign last1 rest) as [last2 rrest] eqn:Er.
      destruct rrest as [rest'|e]; cbn [bind] in H; inversion H; subst.
      constructor.
      * apply (build_row_ok _ _ _ _ Eb).
      * eapply IH; eauto.
    + destruct (update_rows now where_ assign last rest) as [last1 rrest] eqn:Er.
      destruct rrest as [rest'|e]; cbn [bind] in H; inversion H; subst.
      constructor; auto. eapply IH; eauto.
Qed.

(** An UPDATE replaces the rows by checked rows with distinct ids, or
    leaves them as they are. *)
Lemma update_cases now t where_ assign :
  rows (fst (update now t where_ assign)) = rows t
  \/ (NoDup (map id (rows (fst (update now t where_ assign))))
      /\ (Forall (fun r => task_type_check (task_type r) = true) (rows t) ->
          Forall (fun r => task_type_check (task_type r) = true)
                 (rows (fst (update now t where_ assign))))).
Proof.
  unfold update.
  destruct (update_rows now where_ assign (last_value t) (rows t)) as [last r] eqn:E.
  destruct r as [rs|e]; simpl; auto.
  destruct (unique_ids rs) eqn:Eu; simpl; auto.
  right. split.
  - now apply unique_ids_NoDup.
  - intros Hall. eapply update_rows_check; eauto.
Qed.

Lemma NoDup_map_filter (A B : Type) (f : A -> B) (p : A -> bool) l :
  NoDup (map f l) -> NoDup (map f (filter p l)).
Proof.
  induction l as [|a l IH]; simpl; intros H; auto.
  inversion H as [|? ? Hnin Hnd]; subst.
  destruct (p a); simpl; auto.
  constructor; auto. intros Hin. apply Hnin.
  apply in_map_iff in Hin. destruct Hin as [x [Hx Hin]].
  apply filter_In in Hin. rewrite <- Hx. apply in_map. tauto.
Qed.


Lemma exec_ok now t st : table_ok t -> table_ok (exec now t st).
Proof.
  intros [Hnd Hall]. destruct st as [s|w a|w]; simpl.
  - destruct (insert_cases now t s) as [_ [[e [_ Hr]]|[row [_ [Hr [Hnin [Hc _]]]]]]];
      unfold table_ok; rewrite Hr; auto.
    split.
    + rewrite map_app. simpl. apply NoDup_app; auto.
      * repeat constructor. simpl. tauto.
      * intros x Hx [Hx'|[]]. subst. contradiction.
    + apply Forall_app. auto.
  - destruct (update_cases now t w a) as [Hr|[Hnd' Hall']].
    + unfold table_ok. rewrite Hr. auto.
    + split; auto.
  - unfold delete, table_ok. simpl. split.
    + now apply NoDup_map_filter.
    + apply Forall_forall. intros r Hr. apply filter_In in Hr.
      destruct Hr as [Hr _]. revert r Hr. now apply Forall_forall.
Qed.

Lemma exec_all_ok script : forall t, table_ok t -> table_ok (exec_all t script).
Proof.
  unfold exec_all.
  induction script as [|[now st] rest IH]; intros t Ht; simpl; auto.
  apply IH. now apply exec_ok.
Qed.

Lemma empty_ok : table_ok empty.
Proof. split; constructor. Qed.

End TableFacts.

Section TableTheorems.
Import Db.

(** C10. Whatever statements run on the predictions table, every row has
    task_type 'classification' or 'regression'; an INSERT that gives any
    other task_type, or none, fails and adds no row. *)
Theorem task_type_is_classification_or_regression :
  (forall script,
     Forall (fun r => task_type r = "classification"%string
                      \/ task_type r = "regression"%string)
            (rows (exec_all empty script)))
  /\ (forall now t s,
        ~ (exists ty, i_task_type s = Val ty
                      /\ (ty = "classification"%string \/ ty = "regression"%string)) ->
        exists e, snd (insert now t s) = Err e
                  /\ rows (fst (insert now t s)) = rows t).
Proof.
  split.
  - intros script. destruct (exec_all_ok script empty empty_ok) as [_ H].
    eapply Forall_impl; [|exact H]. intros r Hr. now apply task_type_check_iff.
  - intros now t s Hno.
    destruct (insert_cases now t s) as [_ [H|[row [_ [_ [_ [Hc [Ht _]]]]]]]]; auto.
    exfalso. apply Hno. exists (task_type row). split; auto.
    now apply task_type_check_iff.
Qed.


Example clustering_insert_fails :
  snd (insert 0 empty clustering_insert)
  = Err (CheckViolation "predictions_task_type_check").
Proof. reflexivity. Qed.

Lemma task_type_is_classification_or_regression_witness :
  exists e, snd (insert 0 empty clustering_insert) = Err e
            /\ rows (fst (insert 0 empty clustering_insert)) = rows empty.
Proof.
  apply (proj2 task_type_is_classification_or_regression 0%Z empty clustering_insert).
  intros [ty [Hty [H|H]]]; subst ty; discriminate Hty.
Defined.

(** *** Ids *)


Lemma StronglySorted_snoc (l : list Z) (x : Z) :
  StronglySorted Z.lt l -> Forall (fun y => (y < x)%Z) l ->
  StronglySorted Z.lt (l ++ [x]).
Proof.
  induction 1 as [|a l Hs IH Ha]; intros Hall; simpl.
  - repeat constructor.
  - inversion Hall; subst. constructor; auto.
    apply Forall_app. split; auto.
Qed.

Lemma StronglySorted_nth (l : list Z) :
  StronglySorted Z.lt l ->
  forall i j a b, (i < j)%nat ->
    nth_error l i = Some a -> nth_error l j = Some b -> (a < b)%Z.
Proof.
  induction 1 as [|x l Hs IH Hx]; intros i j a b Hij Ha Hb.
  - destruct i; discriminate.
  - destruct j as [|j]; [lia|]. simpl in Hb.
    destruct i as [|i]; simpl in Ha.
    + inversion Ha; subst.
      apply nth_error_In in Hb. revert b Hb. now apply Forall_forall.
    + apply (IH i j); auto. lia.
Qed.

Lemma insert_default_ordered now t s :
  i_id s = Default -> ordered t -> ordered (fst (insert now t s)).
Proof.
  intros Hd [Hs Hle].
  destruct (insert_cases now t s)
    as [Hlast [[e [_ Hr]]|[row [_ [Hr [_ [_ [_ [_ Hid]]]]]]]]];
    unfold ordered; rewrite Hr.
  - split; auto. eapply Forall_impl; [|exact Hle]. simpl. intros r Hrl. lia.
  - destruct (Hid Hd) as [Hrow Hnew]. split.
    + rewrite map_app. simpl. apply StronglySorted_snoc; auto.
      apply Forall_forall. intros y Hy. apply in_map_iff in Hy.
      destruct Hy as [r [<- Hin]].
      pose proof (proj1 (Forall_forall _ _) Hle r Hin) as Hrl. simpl in Hrl. lia.
    + apply Forall_app. split.
      * eapply Forall_impl; [|exact Hle]. simpl. intros r Hrl. lia.
      * repeat constructor. lia.
Qed.

Lemma appends_ordered script :
  appends script -> forall t, ordered t -> ordered (exec_all t script).
Proof.
  unfold exec_all.
  induction 1 as [|[now st] rest [s [Hst Hd]] Hrest IH]; intros t Ht; simpl; auto.
  apply IH. simpl in Hst. subst st. simpl. now apply insert_default_ordered.
Qed.

Lemma empty_ordered : ordered empty.
Proof. split; constructor. Qed.

(** C6. The ids of the rows of the predictions table are pairwise distinct
    whatever statements ran; and when rows are only appended with the id
    left to the store, a row inserted later has the strictly greater id. *)
Theorem ids_distinct_and_increasing_in_insertion_order :
  (forall script, NoDup (map id (rows (exec_all empty script))))
  /\ (forall script, appends script ->
        forall i j ri rj, (i < j)%nat ->
          nth_error (rows (exec_all empty script)) i = Some ri ->
          nth_error (rows (exec_all empty script)) j = Some rj ->
          (id ri < id rj)%Z).
Proof.
  split.
  - intros script. apply (exec_all_ok script empty empty_ok).
  - intros script Happ i j ri rj Hij Hi Hj.
    destruct (appends_ordered script Happ empty empty_ordered) as [Hs _].
    apply (StronglySorted_nth _ Hs i j); auto.
    + rewrite nth_error_map, Hi. reflexivity.
    + rewrite nth_error_map, Hj. reflexivity.
Qed.

Lemma seed_data_appends now : appends (map (pair now) (Seed.seed_data now)).
Proof.
  unfold Seed.seed_data, appends. simpl.
  repeat (apply Forall_cons; [eexists; split; reflexivity|]). apply Forall_nil.
Qed.

Lemma ids_distinct_and_increasing_in_insertion_order_witness :
  appends (map (pair 0%Z) (Seed.seed_data 0))
  /\ forall i j ri rj, (i < j)%nat ->
       nth_error (rows (Seed.seeded 0)) i = Some ri ->
       nth_error (rows (Seed.seeded 0)) j = Some rj ->
       (id ri < id rj)%Z.
Proof.
  split; [exact (seed_data_appends 0)|].
  exact (proj2 ids_distinct_and_increasing_in_insertion_order
           (map (pair 0%Z) (Seed.seed_data 0)) (seed_data_appends 0)).
Defined.

(** The policies of the schema let UPDATE and DELETE through for every
    row: the table itself does not make its rows immutable. *)
Lemma policies_permit_update_and_delete r :
  permitted ForUpdate r = true /\ permitted ForDelete r = true.
Proof. split; reflexivity. Qed.

End TableTheorems.

(** ** The backend pipeline *)

Section PipelineFacts.
Import Db Backend.

Variable eps : Q.
Variable validate : string -> Js.Value -> bool.
Variable classifier : Js.Value -> Shaper.Scores.
Variable regressor : Js.Value -> Q * Q.
Variable metadata : Js.Value.

Lemma append_rows now t s :
  rows (append now t s) = rows t
  \/ exists row, rows (append now t s) = rows t ++ [row]
                 /\ i_task_type s = Val (task_type row)
                 /\ i_output_result s = Val (output_result row).
Proof.
  unfold append.
  destruct (insert_cases now t s) as [_ [[e [_ Hr]]|[row [_ [Hr [_ [_ [Ht [Ho _]]]]]]]]].
  - now left.
  - right. exists row. auto.
Qed.

Lemma append_extends now t s : exists new, rows (append now t s) = rows t ++ new.
Proof.
  destruct (append_rows now t s) as [H|[row [H _]]].
  - exists []. now rewrite app_nil_r.
  - now exists [row].
Qed.

Lemma predict_extends now t task features :
  exists new,
    rows (fst (predict eps validate classifier regressor now t task features))
    = rows t ++ new.
Proof.
  assert (Hsame : exists new, rows t = rows t ++ new)
    by (exists []; now rewrite app_nil_r).
  unfold predict.
  destruct (negb (validate task features)); simpl; auto.
  destruct (String.eqb task "classification").
  - destruct (Shaper.shape_classification eps (classifier features)); simpl; auto.
    apply append_extends.
  - destruct (String.eqb task "regression"); simpl; auto.
    destruct (regressor features) as [point se]. simpl. apply append_extends.
Qed.

Lemma handle_get now t url params :
  fst (handle eps validate classifier regressor metadata now t (Api.Get url params)) = t.
Proof.
  simpl.
  destruct (String.eqb url "/api/predictions/history").
  - destruct (nat_param params "limit" 50), (nat_param params "offset" 0);
      reflexivity.
  - destruct (String.eqb url "/api/models/info"); [reflexivity|].
    destruct (String.eqb url "/api/health"); reflexivity.
Qed.

Lemma handle_extends now t req :
  exists new,
    rows (fst (handle eps validate classifier regressor metadata now t req))
    = rows t ++ new.
Proof.
  destruct req as [url body|url params].
  - simpl.
    destruct (String.eqb url "/api/predict/classification");
      [apply predict_extends|].
    destruct (String.eqb url "/api/predict/regression");
      [apply predict_extends|].
    exists []. simpl. now rewrite app_nil_r.
  - rewrite handle_get. exists []. now rewrite app_nil_r.
Qed.

(** C7. No request the client can send makes the backend change or remove
    a stored row: after any request, and after any run of requests, the
    rows that were in the predictions table are still there, unchanged and
    in place, followed by the rows appended since; a GET leaves the table
    as it is. *)
Theorem requests_only_append_rows :
  (forall now t req,
     exists new,
       rows (fst (handle eps validate classifier regressor metadata now t req))
       = rows t ++ new)
  /\ (forall reqs t,
        exists new,
          rows (handle_all eps validate classifier regressor metadata t reqs)
          = rows t ++ new)
  /\ (forall now t url params,
        fst (handle eps validate classifier regressor metadata now t
               (Api.Get url params)) = t).
Proof.
  split; [exact handle_extends|]. split; [|exact handle_get].
  induction reqs as [|[now req] rest IH]; intros t; simpl.
  - exists []. now rewrite app_nil_r.
  - destruct (handle_extends now t req) as [new1 H1].
    destruct (IH (fst (handle eps validate classifier regressor metadata now t req)))
      as [new2 H2].
    exists (new1 ++ new2). now rewrite H2, H1, app_assoc.
Qed.

(** *** Classification results *)

Lemma normalize_sum raw p :
  0 <= eps -> Shaper.normalize eps raw = Some p ->
  Qabs (Shaper.total p - 1) <= Shaper.tolerance.
Proof.
  intros He. unfold Shaper.normalize.
  destruct (Shaper.sums_to_one raw) eqn:E1.
  - intros H. inversion H; subst. now apply Qle_bool_iff.
  - destruct (Qle_bool (Qabs (Shaper.total raw)) eps) eqn:E2; [discriminate|].
    intros H. inversion H; subst. clear H.
    assert (Hnz : ~ Shaper.total raw == 0).
    { intros Hz. assert (Hle : Qle_bool (Qabs (Shaper.total raw)) eps = true).
      { apply Qle_bool_iff. rewrite Hz. exact He. }
      congruence. }
    unfold Shaper.total in *.
    cbn [Shaper.confirmed Shaper.false_positive].
    set (c := Shaper.confirmed raw) in *.
    set (f := Shaper.false_positive raw) in *.
    assert (Hone : c / (c + f) + f / (c + f) - 1 == 0) by (field; exact Hnz).
    rewrite Hone. discriminate.
Qed.

Lemma argmax_greatest p l :
  Shaper.score p l <= Shaper.score p (Shaper.argmax p).
Proof.
  unfold Shaper.argmax.
  destruct (Qle_bool (Shaper.false_positive p) (Shaper.confirmed p)) eqn:E.
  - apply Qle_bool_iff in E. destruct l; simpl; auto. apply Qle_refl.
  - assert (H : Shaper.confirmed p < Shaper.false_positive p).
    { apply Qnot_le_lt. intros H. apply Qle_bool_iff in H. congruence. }
    destruct l; simpl; [now apply Qlt_le_weak|apply Qle_refl].
Qed.

Lemma argmax_tie p :
  Shaper.confirmed p == Shaper.false_positive p -> Shaper.argmax p = Shaper.CONFIRMED.
Proof.
  intros H. unfold Shaper.argmax.
  assert (Hle : Qle_bool (Shaper.false_positive p) (Shaper.confirmed p) = true).
  { apply Qle_bool_iff. rewrite H. apply Qle_refl. }
  now rewrite Hle.
Qed.

Lemma shape_classification_well_formed raw r :
  0 <= eps -> Shaper.shape_classification eps raw = Some r -> Shaper.well_formed r.
Proof.
  intros He. unfold Shaper.shape_classification.
  destruct (Shaper.normalize eps raw) as [p|] eqn:En; [|discriminate].
  intros H. inversion H; subst. clear H. unfold Shaper.well_formed. simpl.
  split; [eapply normalize_sum; eauto|]. split; [reflexivity|].
  split; [apply argmax_greatest|apply argmax_tie].
Qed.

Lemma decode_encode_classification r :
  Shaper.decode_classification (Shaper.encode_classification r) = Some r.
Proof. destruct r as [[|] c [pc pf]]; reflexivity. Qed.

End PipelineFacts.

Section ClassificationTheorem.
Import Db Backend.

Lemma seeded_classification_well_formed now :
  Forall (fun row =>
            task_type row = "classification"%string ->
            exists r, Shaper.decode_classification (output_result row) = Some r
                      /\ Shaper.well_formed r)
         (rows (Seed.seeded now)).
Proof.
  unfold Seed.seeded. simpl.
  repeat (apply Forall_cons; [simpl; intros Ht; try discriminate Ht|]);
    try apply Forall_nil.
  - eexists. split; [reflexivity|]. unfold Shaper.well_formed. simpl.
    split; [closed_Q|]. split; [reflexivity|].
    split; [intros [|]; simpl; closed_Q|reflexivity].
  - eexists. split; [reflexivity|]. unfold Shaper.well_formed. simpl.
    split; [closed_Q|]. split; [reflexivity|].
    split; [intros [|]; simpl; closed_Q|].
    intros H. unfold Qeq in H. simpl in H. lia.
Qed.

(** C2. Every classification result the shaper produces, and so every one
    the pipeline serves and stores, has probabilities that sum to 1 within
    1e-6, a confidence equal to the probability of its label, and as label
    the class of greatest probability among CONFIRMED and FALSE POSITIVE
    (CONFIRMED on a tie); the shaper does produce a result unless the raw
    scores sum to about zero; the two classification rows of the seed
    script satisfy the same. *)
Theorem classification_results_are_well_formed (eps : Q) :
  0 <= eps ->
  (forall raw r,
     Shaper.shape_classification eps raw = Some r -> Shaper.well_formed r)
  /\ (forall raw,
        Shaper.sums_to_one raw = true \/ eps < Qabs (Shaper.total raw) ->
        exists r, Shaper.shape_classification eps raw = Some r)
  /\ (forall r, Shaper.decode_classification (Shaper.encode_classification r) = Some r)
  /\ (forall validate classifier regressor now t features body,
        snd (predict eps validate classifier regressor now t
               "classification" features) = Reply_json 200 body ->
        exists r, Shaper.decode_classification body = Some r
                  /\ Shaper.well_formed r)
  /\ (forall validate classifier regressor now t features row,
        In row (rows (fst (predict eps validate classifier regressor now t
                             "classification" features))) ->
        In row (rows t)
        \/ exists r, Shaper.decode_classification (output_result row) = Some r
                     /\ Shaper.well_formed r)
  /\ (forall now,
        Forall (fun row =>
                  task_type row = "classification"%string ->
                  exists r, Shaper.decode_classification (output_result row) = Some r
                            /\ Shaper.well_formed r)
               (rows (Seed.seeded now))).
Proof.
  intros He.
  split; [intros raw r; now apply shape_classification_well_formed|].
  split.
  { intros raw H. unfold Shaper.shape_classification, Shaper.normalize.
    destruct (Shaper.sums_to_one raw) eqn:E1; [eauto|].
    destruct H as [H|H]; [discriminate|].
    destruct (Qle_bool (Qabs (Shaper.total raw)) eps) eqn:E2; [|eauto].
    apply Qle_bool_iff in E2. exfalso. revert H. now apply Qle_not_lt. }
  split; [exact decode_encode_classification|].
  split.
  { intros validate classifier regressor now t features body.
    unfold predict. destruct (negb (validate "classification"%string features)).
    - simpl. intros H. inversion H.
    - simpl String.eqb. cbv iota.
      destruct (Shaper.shape_classification eps (classifier features)) as [r|] eqn:Es;
        simpl; intros H; inversion H; subst.
      exists r. split; [apply decode_encode_classification|].
      eapply shape_classification_well_formed; eauto. }
  split; [|exact seeded_classification_well_formed].
  intros validate classifier regressor now t features row.
  unfold predict. destruct (negb (validate "classification"%string features)).
  - simpl. auto.
  - simpl String.eqb. cbv iota.
    destruct (Shaper.shape_classification eps (classifier features)) as [r|] eqn:Es;
      simpl; auto.
    destruct (append_rows now t
                (record_without_id "classification" features
                   (Shaper.encode_classification r) "classification_pipeline_v1"))
      as [Hr|[row' [Hr [_ Ho]]]]; rewrite Hr; auto.
    intros Hin. apply in_app_or in Hin. destruct Hin as [Hin|[<-|[]]]; auto.
    right. exists r. simpl in Ho. inversion Ho as [Hout].
    split; [apply decode_encode_classification|].
    eapply shape_classification_well_formed; eauto.
Qed.


Lemma classification_results_are_well_formed_witness :
  0 <= 0
  /\ exists r, Shaper.shape_classification 0 Shaper.unnormalised_scores = Some r
               /\ Shaper.well_formed r.
Proof.
  assert (H : 0 <= 0) by closed_Q.
  split; [exact H|]. eexists. split; [reflexivity|].
  apply (proj1 (classification_results_are_well_formed 0 H)
           Shaper.unnormalised_scores).
  reflexivity.
Defined.

End ClassificationTheorem.

(* ================================================================== *)
(** * Part III. Further properties of the code *)
(* ================================================================== *)

(** ** The validation utilities *)

Section ValidationMore.
Import Validation.

Lemma gt_fin_iff (x y : Q) : Js.gt (Js.Fin x) (Js.Fin y) = true <-> y < x.
Proof. unfold Js.gt. apply lt_fin_iff. Qed.

Lemma le_fin_iff (x y : Q) : Js.le (Js.Fin x) (Js.Fin y) = true <-> x <= y.
Proof. simpl. apply Qle_bool_iff. Qed.

(** X1. For a key whose entry declares both bounds and is not required,
    validateFeature returns null exactly when the value is '', null or
    undefined, or when parseFloat of it is a finite number inside the
    bounds (trailing text after the number does not matter). *)
Theorem validateFeature_null_iff_empty_or_in_range
  (key : string) (value : Js.Value) (config : list Spec.t)
  (f : Spec.t) (lo hi : Q) :
  find_feature config key = Some f ->
  Spec.min f = Some lo -> Spec.max f = Some hi ->
  Js.truthy (Spec.required f) = false ->
  (validateFeature key value config = None <->
   is_empty value = true
   \/ exists q, Js.parseFloat value = Js.Fin q /\ lo <= q /\ q <= hi).
Proof.
  intros Hf Hlo Hhi Hreq. split.
  - intros Hv. destruct (is_empty value) eqn:Ee; [now left|right].
    apply (validateFeature_in_range key value config f lo hi); auto.
  - intros [He|[q [Hp [H1 H2]]]].
    + unfold validateFeature. now rewrite Hf, He, Hreq.
    + unfold validateFeature. rewrite Hf.
      destruct (is_empty value); [now rewrite Hreq|].
      rewrite Hp. cbn [Js.isNaN]. unfold check_min, check_max.
      rewrite Hlo, Hhi.
      destruct (Js.lt (Js.Fin q) (Js.Fin lo)) eqn:E1.
      { apply lt_fin_true in E1. exfalso. revert E1. now apply Qle_not_lt. }
      destruct (Js.gt (Js.Fin q) (Js.Fin hi)) eqn:E2; auto.
      apply gt_fin_iff in E2. exfalso. revert E2. now apply Qle_not_lt.
Qed.

Lemma validateFeature_null_iff_empty_or_in_range_witness :
  validateFeature "koi_prad" (Js.JStr "2.5 Earth radii") InputForm.FEATURE_CONFIG
  = None.
Proof.
  refine (proj2 (validateFeature_null_iff_empty_or_in_range
                   "koi_prad" (Js.JStr "2.5 Earth radii") InputForm.FEATURE_CONFIG
                   _ 0.1 30 eq_refl eq_refl eq_refl eq_refl) _).
  right. exists (5 # 2). split; [reflexivity|]. split; closed_Q.
Defined.

(** X2. Which message a rejected value gets: a non-empty value without a
    numeric prefix is "must be a number"; a number below the minimum is
    "must be at least <min>", also when it is above the maximum as well;
    a number that reaches the minimum but exceeds the maximum is "must be
    at most <max>"; the infinities count as numbers out of range. *)
Theorem validateFeature_message_by_case
  (key : string) (value : Js.Value) (config : list Spec.t)
  (f : Spec.t) (lo hi : Q) :
  find_feature config key = Some f ->
  Spec.min f = Some lo -> Spec.max f = Some hi ->
  is_empty value = false ->
  (Js.parseFloat value = Js.NaN ->
   validateFeature key value config = Some (MustBeNumber (Spec.name f)))
  /\ (forall q, Js.parseFloat value = Js.Fin q -> q < lo ->
        validateFeature key value config = Some (MustBeAtLeast (Spec.name f) lo))
  /\ (forall q, Js.parseFloat value = Js.Fin q -> lo <= q -> hi < q ->
        validateFeature key value config = Some (MustBeAtMost (Spec.name f) hi))
  /\ (Js.parseFloat value = Js.NegInf ->
      validateFeature key value config = Some (MustBeAtLeast (Spec.name f) lo))
  /\ (Js.parseFloat value = Js.PosInf ->
      validateFeature key value config = Some (MustBeAtMost (Spec.name f) hi)).
Proof.
  intros Hf Hlo Hhi He. unfold validateFeature, check_min, check_max.
  rewrite Hf, He, Hlo, Hhi.
  split; [|split; [|split; [|split]]].
  - intros ->. reflexivity.
  - intros q -> Hq. cbn [Js.isNaN].
    now rewrite (proj2 (lt_fin_iff q lo) Hq).
  - intros q -> H1 H2. cbn [Js.isNaN].
    destruct (Js.lt (Js.Fin q) (Js.Fin lo)) eqn:E1.
    { apply lt_fin_true in E1. exfalso. revert E1. now apply Qle_not_lt. }
    now rewrite (proj2 (gt_fin_iff q hi) H2).
  - intros ->. reflexivity.
  - intros ->. reflexivity.
Qed.

Lemma validateFeature_message_by_case_witness :
  validateFeature "koi_prad" (Js.JStr "999999") InputForm.FEATURE_CONFIG
  = Some (MustBeAtMost "Planetary Radius" 30).
Proof.
  refine (proj1 (proj2 (proj2 (validateFeature_message_by_case
            "koi_prad" (Js.JStr "999999") InputForm.FEATURE_CONFIG
            _ 0.1 30 eq_refl eq_refl eq_refl eq_refl)))
          999999 eq_refl _ _); closed_Q.
Defined.


Lemma validate_each_none features config todo errs :
  (forall f, In f todo ->
     validateFeature (Spec.key f) (read features (Spec.key f)) config = None) ->
  validate_each features config todo errs = errs.
Proof.
  revert errs. induction todo as [|f rest IH]; intros errs Hnone; simpl; auto.
  rewrite (Hnone f (or_introl eq_refl)). apply IH.
  intros g Hg. apply Hnone. now right.
Qed.








Lemma set_fresh (V : Type) (o : Js.Object V) k v :
  ~ In k (Js.keys o) -> Js.set o k v = o ++ [(k, v)].
Proof.
  induction o as [|[k' v'] rest IH]; simpl; intros Hnin; auto.
  destruct (String.eqb k' k) eqn:E.
  - apply String.eqb_eq in E. subst. tauto.
  - f_equal. apply IH. tauto.
Qed.

Lemma fold_defaults_fresh config acc :
  NoDup (map Spec.key config) ->
  (forall k, In k (map Spec.key config) -> ~ In k (Js.keys acc)) ->
  fold_left (fun a f => Js.set a (Spec.key f) (Spec.default f)) config acc
  = acc ++ map (fun f => (Spec.key f, Spec.default f)) config.
Proof.
  revert acc. induction config as [|f rest IH]; intros acc Hnd Hfresh; simpl.
  - now rewrite app_nil_r.
  - inversion Hnd as [|? ? Hnin Hnd']; subst.
    rewrite set_fresh by (apply Hfresh; now left).
    rewrite IH; auto.
    + now rewrite <- app_assoc.
    + intros k Hk. unfold Js.keys. rewrite map_app. simpl.
      intros Hin. apply in_app_or in Hin. destruct Hin as [Hin|[Hin|[]]].
      * revert Hin. apply Hfresh. now right.
      * subst k. contradiction.
Qed.

Lemma find_feature_NoDup config f :
  NoDup (map Spec.key config) -> In f config ->
  find_feature config (Spec.key f) = Some f.
Proof.
  unfold find_feature.
  induction config as [|g rest IH]; simpl; intros Hnd Hin; [contradiction|].
  inversion Hnd as [|? ? Hnin Hnd']; subst.
  destruct Hin as [->|Hin].
  - now rewrite String.eqb_refl.
  - destruct (String.eqb (Spec.key g) (Spec.key f)) eqn:E; auto.
    apply String.eqb_eq in E. exfalso. apply Hnin. rewrite E. now apply in_map.
Qed.

Lemma getDefaultFeatures_entries (config : list Spec.t) :
  NoDup (map Spec.key config) ->
  getDefaultFeatures config = map (fun f => (Spec.key f, Spec.default f)) config.
Proof.
  intros Hnd. unfold getDefaultFeatures. rewrite fold_defaults_fresh; auto.
Qed.

Lemma getDefaultFeatures_read (config : list Spec.t) (f : Spec.t) :
  NoDup (map Spec.key config) -> In f config ->
  read (getDefaultFeatures config) (Spec.key f) = Spec.default f.
Proof.
  intros Hnd Hf. unfold read.
  rewrite (get_of_NoDup _ (getDefaultFeatures config) (Spec.key f)
             (Spec.default f)); auto.
  - rewrite (getDefaultFeatures_entries config Hnd). unfold Js.keys.
    rewrite map_map. exact Hnd.
  - rewrite (getDefaultFeatures_entries config Hnd).
    apply (in_map (fun g => (Spec.key g, Spec.default g))). exact Hf.
Qed.




(** X7. For a configuration with distinct keys in which every default is a
    number inside the bounds of its entry, the defaults pass validation:
    validateAllFeatures of getDefaultFeatures is empty. FEATURE_CONFIG is
    such a configuration, so the form as first shown can be submitted. *)
Theorem defaults_in_bounds_pass_validation (config : list Spec.t) :
  NoDup (map Spec.key config) ->
  Forall default_in_bounds config ->
  validateAllFeatures (getDefaultFeatures config) config = []
  /\ isValidFeatures (getDefaultFeatures config) config = true.
Proof.
  intros Hnd Hdef.
  assert (Hall : validateAllFeatures (getDefaultFeatures config) config = []).
  { apply validate_each_none. intros f Hf.
    rewrite (getDefaultFeatures_read config f Hnd Hf).
    destruct (proj1 (Forall_forall _ _) Hdef f Hf)
      as [d [lo [hi [Hd [Hlo [Hhi [H1 H2]]]]]]].
    rewrite Hd.
    apply (validateFeature_accepts_in_range (Spec.key f) config f lo hi d); auto.
    now apply find_feature_NoDup. }
  split; auto. unfold isValidFeatures. now rewrite Hall.
Qed.

Lemma FEATURE_CONFIG_defaults_in_bounds :
  Forall default_in_bounds InputForm.FEATURE_CONFIG.
Proof.
  unfold InputForm.FEATURE_CONFIG.
  repeat (apply Forall_cons;
          [do 3 eexists; split; [reflexivity|]; split; [reflexivity|];
           split; [reflexivity|]; split; closed_Q|]).
  apply Forall_nil.
Qed.

Lemma defaults_in_bounds_pass_validation_witness :
  validateAllFeatures (getDefaultFeatures InputForm.FEATURE_CONFIG)
    InputForm.FEATURE_CONFIG = []
  /\ isValidFeatures (getDefaultFeatures InputForm.FEATURE_CONFIG)
       InputForm.FEATURE_CONFIG = true.
Proof.
  exact (defaults_in_bounds_pass_validation InputForm.FEATURE_CONFIG
           FEATURE_CONFIG_keys_NoDup FEATURE_CONFIG_defaults_in_bounds).
Defined.

(** X8. isInRange holds exactly when parseFloat of the value is a finite
    number between the two bounds; an empty value is never in range, and
    for an entry with both bounds validateFeature accepts a non-empty
    value exactly when isInRange holds of it. *)
Theorem isInRange_iff_parsed_between (value : Js.Value) (lo hi : Q) :
  (isInRange value (Js.Fin lo) (Js.Fin hi) = true <->
   exists q, Js.parseFloat value = Js.Fin q /\ lo <= q /\ q <= hi)
  /\ (is_empty value = true -> isInRange value (Js.Fin lo) (Js.Fin hi) = false)
  /\ forall key config f,
       find_feature config key = Some f ->
       Spec.min f = Some lo -> Spec.max f = Some hi ->
       is_empty value = false ->
       (validateFeature key value config = None <->
        isInRange value (Js.Fin lo) (Js.Fin hi) = true).
Proof.
  assert (Hiff : isInRange value (Js.Fin lo) (Js.Fin hi) = true <->
                 exists q, Js.parseFloat value = Js.Fin q /\ lo <= q /\ q <= hi).
  { unfold isInRange, Js.ge.
    destruct (Js.parseFloat value) as [|q| |]; cbn [Js.isNaN negb andb].
    - split; [discriminate|]. intros [q [H _]]. discriminate.
    - rewrite andb_true_iff, !le_fin_iff. split.
      + intros [H1 H2]. exists q. auto.
      + intros [q' [Hq [H1 H2]]]. inversion Hq; subst. auto.
    - split; [simpl; discriminate|]. intros [q [H _]]. discriminate.
    - split; [simpl; discriminate|]. intros [q [H _]]. discriminate. }
  split; [exact Hiff|]. split.
  - intros He. destruct value; simpl in He; try discriminate; try reflexivity.
    apply String.eqb_eq in He. subst s. reflexivity.
  - intros key config f Hf Hlo Hhi Hne. rewrite Hiff. split.
    + intros Hv.
      apply (validateFeature_in_range key value config f lo hi); auto.
    + intros [q [Hp [H1 H2]]]. unfold validateFeature, check_min, check_max.
      rewrite Hf, Hne, Hp, Hlo, Hhi. cbn [Js.isNaN].
      destruct (Js.lt (Js.Fin q) (Js.Fin lo)) eqn:E1.
      { apply lt_fin_true in E1. exfalso. revert E1. now apply Qle_not_lt. }
      destruct (Js.gt (Js.Fin q) (Js.Fin hi)) eqn:E2; auto.
      apply gt_fin_iff in E2. exfalso. revert E2. now apply Qle_not_lt.
Qed.

End ValidationMore.

(** ** The form's handlers *)

Section FormMore.
Import Validation InputForm.

Lemma has_error_iff errs k :
  has_error errs k = true <-> exists e, Js.get errs k = Some (Some e).
Proof.
  unfold has_error. destruct (Js.get errs k) as [[e|]|]; split;
    try discriminate; eauto; intros [e H]; discriminate.
Qed.

(** X9. Typing into a field stores the typed value under that key and
    clears that key's error; the values and errors of all other keys, the
    order of the keys and the touched marks stay as they were. *)
Theorem handleChange_touches_only_its_field
  (key : string) (value : Js.Value) (st : State) :
  read (features (handleChange key value st)) key = value
  /\ has_error (errors (handleChange key value st)) key = false
  /\ (forall k, k <> key ->
        read (features (handleChange key value st)) k = read (features st) k
        /\ Js.get (errors (handleChange key value st)) k = Js.get (errors st) k)
  /\ touched (handleChange key value st) = touched st
  /\ (In key (Js.keys (features st)) ->
      Js.keys (features (handleChange key value st)) = Js.keys (features st)).
Proof.
  split; [|split; [|split; [|split]]].
  - unfold read. simpl. now rewrite get_set_same.
  - simpl. destruct (has_error (errors st) key) eqn:E; auto.
    unfold has_error. now rewrite get_set_same.
  - intros k Hk. split.
    + simpl. apply read_set_other. congruence.
    + simpl. destruct (has_error (errors st) key); auto.
      apply get_set_other. congruence.
  - reflexivity.
  - intros Hin. simpl. now apply keys_set_present.
Qed.

Lemma handleChange_touches_only_its_field_witness :
  Js.keys (features (handleChange "koi_prad" (Js.JStr "7") initial))
  = Js.keys (features initial).
Proof.
  apply (handleChange_touches_only_its_field "koi_prad" (Js.JStr "7") initial).
  simpl. auto.
Defined.


Lemma step_errors_current st ev :
  errors_current st -> errors_current (fst (step st ev)).
Proof.
  intros Hinv k e. destruct ev as [f text|f|]; simpl.
  - destruct (string_dec k (Spec.key f)) as [->|Hne].
    + destruct (has_error (errors st) (Spec.key f)) eqn:E.
      * rewrite get_set_same. discriminate.
      * intros H. assert (Ht : has_error (errors st) (Spec.key f) = true)
          by (apply has_error_iff; eauto). congruence.
    + rewrite read_set_other by congruence.
      destruct (has_error (errors st) (Spec.key f)).
      * rewrite get_set_other by congruence. apply Hinv.
      * apply Hinv.
  - destruct (validateFeature (Spec.key f) (read (features st) (Spec.key f))
                FEATURE_CONFIG) as [err|] eqn:Ev.
    + destruct (string_dec k (Spec.key f)) as [->|Hne].
      * rewrite get_set_same. intros H. inversion H; subst. exact Ev.
      * rewrite get_set_other by congruence. apply Hinv.
    + apply Hinv.
  - unfold validateAllFeatures. rewrite validate_each_get.
    destruct (existsb (String.eqb k) (map Spec.key FEATURE_CONFIG)).
    + destruct (validateFeature k (read (features st) k) FEATURE_CONFIG);
        intros H; [inversion H; reflexivity|discriminate].
    + discriminate.
Qed.

Lemma run_fst_cons st ev rest :
  fst (run st (ev :: rest)) = fst (run (fst (step st ev)) rest).
Proof.
  simpl. destruct (step st ev) as [st1 c1]. simpl.
  now destruct (run st1 rest).
Qed.

Lemma run_snd_cons st ev rest :
  snd (run st (ev :: rest)) = snd (step st ev) ++ snd (run (fst (step st ev)) rest).
Proof.
  simpl. destruct (step st ev) as [st1 c1]. simpl.
  now destruct (run st1 rest).
Qed.

Lemma run_errors_current evs : forall st,
  errors_current st -> errors_current (fst (run st evs)).
Proof.
  induction evs as [|ev rest IH]; intros st Hinv; [exact Hinv|].
  rewrite run_fst_cons. apply IH. now apply step_errors_current.
Qed.

(** X10. Whatever the user does, an error the form holds for a field is
    the verdict of validateFeature on the value the form holds for that
    field now: typing clears the field's error, so no error outlives the
    value it was raised for. *)
Theorem held_errors_are_current (evs : list Event) (k : string) (e : Error) :
  Js.get (errors (fst (run initial evs))) k = Some (Some e) ->
  validateFeature k (read (features (fst (run initial evs))) k) FEATURE_CONFIG
  = Some e.
Proof.
  apply (run_errors_current evs initial). intros k' e' H. discriminate H.
Qed.


Lemma held_errors_are_current_witness :
  validateFeature "koi_prad"
    (read (features (fst (run initial blur_events))) "koi_prad") FEATURE_CONFIG
  = Some (MustBeAtMost "Planetary Radius" 30).
Proof.
  apply (held_errors_are_current blur_events "koi_prad"). reflexivity.
Defined.

(** X11. Only a submit calls onSubmit, and at most once: a run of events
    makes no more calls than it has submit events. *)
Theorem calls_bounded_by_submits (st : State) (evs : list Event) :
  (List.length (snd (run st evs)) <= submits evs)%nat.
Proof.
  revert st. induction evs as [|ev rest IH]; intros st; [simpl; lia|].
  rewrite run_snd_cons, length_app.
  specialize (IH (fst (step st ev))).
  destruct ev as [f text|f|]; simpl in *; try lia.
  destruct (Nat.eqb _ 0); simpl; lia.
Qed.

Lemma touched_all k (config : list Spec.t) : forall acc,
  In k (map Spec.key config) \/ is_touched acc k = true ->
  (forall k', is_touched acc k' = true \/ Js.get acc k' = None) ->
  is_touched (fold_left (fun a f => Js.set a (Spec.key f) true) config acc) k = true.
Proof.
  induction config as [|f rest IH]; intros acc Hk Hacc; simpl.
  - destruct Hk as [[]|Hk]. exact Hk.
  - apply IH.
    + destruct (string_dec k (Spec.key f)) as [->|Hne].
      * right. unfold is_touched. now rewrite get_set_same.
      * destruct Hk as [[Hk|Hk]|Hk]; [congruence|now left|].
        right. unfold is_touched in *. rewrite get_set_other by congruence.
        exact Hk.
    + intros k'. destruct (string_dec k' (Spec.key f)) as [->|Hne].
      * left. unfold is_touched. now rewrite get_set_same.
      * unfold is_touched. rewrite get_set_other by congruence. apply Hacc.
Qed.

(** X12. After a submit no configured field is shown as neutral: each one
    is in state error, with the red border, when validateFeature rejects
    its value, and in state valid, with the green border, otherwise. *)
Theorem submit_marks_every_field (st : State) :
  Forall (fun f =>
            fieldState (Spec.key f) (fst (handleSubmit st))
            = (if failing (features st) FEATURE_CONFIG f then "error" else "valid")%string
            /\ getFieldClass (Spec.key f) (fst (handleSubmit st))
               = (if failing (features st) FEATURE_CONFIG f
                  then "input-field border-red-500"
                  else "input-field border-green-500")%string)
         FEATURE_CONFIG.
Proof.
  apply Forall_forall. intros f Hf.
  assert (Ht : is_touched (touched (fst (handleSubmit st))) (Spec.key f) = true).
  { unfold handleSubmit. cbn [fst touched]. apply touched_all.
    - left. now apply in_map.
    - intros k'. now right. }
  assert (He : has_error (errors (fst (handleSubmit st))) (Spec.key f)
               = failing (features st) FEATURE_CONFIG f).
  { unfold handleSubmit. cbn [fst errors]. unfold has_error, failing.
    rewrite validateAllFeatures_get by (now apply in_map).
    now destruct (validateFeature _ _ _). }
  unfold fieldState, getFieldClass. rewrite Ht, He. simpl.
  now destruct (failing (features st) FEATURE_CONFIG f).
Qed.

(** X27. Leaving a field always shows its true state: in whatever state
    the user's events left the form, after the blur of a field that field
    is marked touched and is in state error when validateFeature rejects
    the value it holds, in state valid otherwise; the features are not
    changed by the blur. *)
Theorem blur_shows_the_field_state (evs : list Event) (f : Spec.t) :
  fieldState (Spec.key f) (handleBlur (Spec.key f) (fst (run initial evs)))
  = (if failing (features (fst (run initial evs))) FEATURE_CONFIG f
     then "error" else "valid")%string
  /\ features (handleBlur (Spec.key f) (fst (run initial evs)))
     = features (fst (run initial evs)).
Proof.
  split; [|reflexivity].
  assert (Hinit : errors_current initial) by (intros k e H; discriminate H).
  pose proof (run_errors_current evs initial Hinit) as Hinv.
  set (st := fst (run initial evs)) in *.
  unfold fieldState, handleBlur, failing. cbn [touched errors features].
  unfold is_touched. rewrite get_set_same. cbn [negb].
  destruct (validateFeature (Spec.key f) (read (features st) (Spec.key f))
              FEATURE_CONFIG) as [e|] eqn:Ev.
  - unfold has_error. now rewrite get_set_same.
  - destruct (has_error (errors st) (Spec.key f)) eqn:Eh; [|reflexivity].
    apply has_error_iff in Eh. destruct Eh as [e He].
    rewrite (Hinv _ _ He) in Ev. discriminate.
Qed.

(** X13. A submit of features that pass validation sends exactly one
    request: a POST to the classification endpoint when the selected task
    is 'classification', to the regression endpoint otherwise, whose body
    holds the form's features, unchanged, under "features". *)
Theorem valid_submit_posts_the_features (st : State) (taskType : string) :
  validateAllFeatures (features st) FEATURE_CONFIG = [] ->
  exists url,
    Home.requests_of_submit taskType st
    = [Api.Post url (Js.JObj [("features"%string, Js.JObj (features st))])]
    /\ url = (if String.eqb taskType "classification"
              then "/api/predict/classification"
              else "/api/predict/regression")%string.
Proof.
  intros H. unfold Home.requests_of_submit.
  rewrite (handleSubmit_calls_valid st H). simpl. unfold Home.request.
  destruct (String.eqb taskType "classification"); eexists; split; reflexivity.
Qed.

Lemma valid_submit_posts_the_features_witness :
  Home.requests_of_submit "regression" initial
  = [Api.Post "/api/predict/regression"
       (Js.JObj [("features"%string, Js.JObj (features initial))])].
Proof.
  destruct (valid_submit_posts_the_features initial "regression" initial_valid)
    as [url [H ->]].
  exact H.
Defined.

End FormMore.

(** ** The page and the interceptor *)

Section PageMore.
Variable show : Q -> string.

(** X14. After a failed request the page never shows an empty error:
    whatever error object axios passed to the interceptor, the page's
    error is a non-empty string, the interceptor's message when that is
    not empty and "An error occurred during prediction" otherwise; the
    result is cleared and the loading flag is off. *)
Theorem page_error_is_never_empty (st : Home.State) (error : Js.Object Js.Value) :
  exists s,
    Home.error (Home.handleSubmit st
                  (Home.through_interceptor show (Home.Failed error)))
    = Js.JStr s
    /\ s <> EmptyString
    /\ (s = Api.on_rejected show error
        \/ (Api.on_rejected show error = EmptyString
            /\ s = "An error occurred during prediction"%string))
    /\ Home.result (Home.handleSubmit st
                      (Home.through_interceptor show (Home.Failed error)))
       = Js.JNull
    /\ Home.isLoading (Home.handleSubmit st
                         (Home.through_interceptor show (Home.Failed error)))
       = false.
Proof.
  simpl. unfold Js.or. simpl.
  destruct (String.eqb (Api.on_rejected show error) "") eqn:E; simpl.
  - apply String.eqb_eq in E. eexists. split; [reflexivity|].
    split; [discriminate|]. split; auto.
  - apply String.eqb_neq in E. eexists. split; [reflexivity|].
    split; [exact E|]. split; auto.
Qed.

(** X15. The interceptor does not look inside a detail that is not a
    string: when the body's detail is an object the message is
    "[object Object]", and when it is an empty array the message is empty
    and the page falls back to its own text. *)
Theorem structured_detail_is_not_unfolded (error : Js.Object Js.Value) :
  (forall props, Api.response_detail error = Js.JObj props ->
     Api.on_rejected show error = "[object Object]"%string)
  /\ (Api.response_detail error = Js.JArr [] ->
      Api.on_rejected show error = EmptyString
      /\ forall st,
           Home.error (Home.handleSubmit st
                         (Home.through_interceptor show (Home.Failed error)))
           = Js.JStr "An error occurred during prediction").
Proof.
  unfold Api.on_rejected, Api.chosen_message. split.
  - intros props H. rewrite H. reflexivity.
  - intros H.
    assert (Hm : Api.on_rejected show error = EmptyString).
    { unfold Api.on_rejected, Api.chosen_message. rewrite H. reflexivity. }
    split; [exact Hm|]. intros st. simpl. now rewrite Hm.
Qed.

End PageMore.


Lemma structured_detail_is_not_unfolded_witness :
  Api.on_rejected (fun _ => "0"%string) Api.per_field_error
  = "[object Object]"%string.
Proof.
  exact (proj1 (structured_detail_is_not_unfolded (fun _ => "0"%string)
                  Api.per_field_error) _ eq_refl).
Defined.

(** ** The charts *)

Section ChartsMore.
Import Charts.

Lemma or_number_zero_fallback (q : Q) :
  exists a, or_number (Some (Js.Fin q)) (Js.Fin 0) = Js.Fin a /\ a == q.
Proof.
  unfold or_number, Js.num_truthy. destruct (Qeq_bool q 0) eqn:E; simpl.
  - apply Qeq_bool_iff in E. exists 0. split; auto. now symmetry.
  - exists q. split; auto. reflexivity.
Qed.

(** X16. The classification chart shows each probability of the response
    at its value: the fallback to 0 applies only to a probability that is
    absent, not a number, NaN or already 0. *)
Theorem classification_bars_show_the_probabilities
  (probabilities : Js.Value) (pc pf : Q) :
  number_prop probabilities "CONFIRMED" = Some (Js.Fin pc) ->
  number_prop probabilities "FALSE POSITIVE" = Some (Js.Fin pf) ->
  exists a b,
    ClassificationChart probabilities = (Js.Fin a, Js.Fin b)
    /\ a == pc /\ b == pf.
Proof.
  intros Hc Hf. unfold ClassificationChart. rewrite Hc, Hf.
  destruct (or_number_zero_fallback pc) as [a [Ha Hac]].
  destruct (or_number_zero_fallback pf) as [b [Hb Hbf]].
  exists a, b. rewrite Ha, Hb. auto.
Qed.

Lemma classification_bars_show_the_probabilities_witness :
  exists a b,
    ClassificationChart (Js.prop Seed.result_1 "probabilities")
    = (Js.Fin a, Js.Fin b)
    /\ a == 0.92 /\ b == 0.08.
Proof.
  exact (classification_bars_show_the_probabilities
           (Js.prop Seed.result_1 "probabilities") 0.92 0.08 eq_refl eq_refl).
Defined.

(** X17. The regression chart never plots a center of 0 or NaN, and it
    never plots a served bound of exactly 0: a lower bound of 0 is
    replaced by center - 0.5 and an upper bound of 0 by center + 0.5. *)
Theorem regression_chart_replaces_zero_bounds
  (prediction : option Js.Number) (ci : option Interval) :
  Js.num_truthy (plot_center (RegressionChart prediction ci)) = true
  /\ (forall z, opt_lower ci = Some (Js.Fin z) -> z == 0 ->
        plot_lower (RegressionChart prediction ci)
        = Js.sub (plot_center (RegressionChart prediction ci)) (Js.Fin 0.5))
  /\ (forall z, opt_upper ci = Some (Js.Fin z) -> z == 0 ->
        plot_upper (RegressionChart prediction ci)
        = Js.add (plot_center (RegressionChart prediction ci)) (Js.Fin 0.5)).
Proof.
  assert (Hz : forall z fb, z == 0 -> or_number (Some (Js.Fin z)) fb = fb).
  { intros z fb H. unfold or_number, Js.num_truthy.
    apply Qeq_bool_iff in H. now rewrite H. }
  unfold RegressionChart. cbn [plot_center plot_lower plot_upper].
  split; [|split].
  - unfold or_number. destruct prediction as [n|]; [|reflexivity].
    destruct (Js.num_truthy n) eqn:E; [exact E|reflexivity].
  - intros z H Hq. rewrite H. now apply Hz.
  - intros z H Hq. rewrite H. now apply Hz.
Qed.


Lemma regression_chart_replaces_zero_bounds_witness :
  plot_lower (RegressionChart (Some (Js.Fin 0.3)) (Some clipped_interval))
  = Js.sub (Js.Fin 0.3) (Js.Fin 0.5).
Proof.
  refine (proj1 (proj2 (regression_chart_replaces_zero_bounds
                          (Some (Js.Fin 0.3)) (Some clipped_interval)))
            0 eq_refl _).
  reflexivity.
Defined.

End ChartsMore.

(** ** The history page *)

Section HistoryMore.
Import History.

Lemma is_string_iff v s : is_string v s = true <-> v = Js.JStr s.
Proof.
  destruct v; simpl; split; try discriminate; intros H.
  - apply String.eqb_eq in H. now subst.
  - inversion H. apply String.eqb_refl.
Qed.

(** X18. The filter 'all' keeps every record; any other filter keeps, in
    their order, exactly the records whose task_type is that string. *)
Theorem history_filter_keeps_matching_records
  (filter : string) (predictions : list (Js.Object Js.Value)) :
  filteredPredictions "all" predictions = predictions
  /\ (filter <> "all"%string ->
      forall p, In p (filteredPredictions filter predictions) <->
                In p predictions
                /\ Js.prop (Js.JObj p) "task_type" = Js.JStr filter)
  /\ filteredPredictions filter (filteredPredictions filter predictions)
     = filteredPredictions filter predictions.
Proof.
  split; [|split].
  - unfold filteredPredictions, keeps. simpl.
    induction predictions as [|p rest IH]; simpl; [reflexivity|now rewrite IH].
  - intros Hne p. unfold filteredPredictions. rewrite filter_In. unfold keeps.
    apply String.eqb_neq in Hne. rewrite Hne. now rewrite is_string_iff.
  - unfold filteredPredictions.
    induction predictions as [|p rest IH]; simpl; [reflexivity|].
    destruct (keeps filter p) eqn:E; simpl; [rewrite E|]; now rewrite ?IH.
Qed.


Lemma history_filter_keeps_matching_records_witness :
  "regression"%string <> "all"%string
  /\ forall p, In p (filteredPredictions "regression" sample_history) <->
               In p sample_history
               /\ Js.prop (Js.JObj p) "task_type" = Js.JStr "regression".
Proof.
  assert (H : "regression"%string <> "all"%string) by discriminate.
  split; [exact H|].
  exact (proj1 (proj2 (history_filter_keeps_matching_records
                         "regression" sample_history)) H).
Defined.

(** X19. When every record has task type 'classification' or
    'regression', as the table's CHECK constraint ensures, the two task
    filters split the history: each record is kept by exactly one of them. *)
Theorem history_filters_partition
  (predictions : list (Js.Object Js.Value)) :
  Forall (fun p => Js.prop (Js.JObj p) "task_type" = Js.JStr "classification"
                   \/ Js.prop (Js.JObj p) "task_type" = Js.JStr "regression")
         predictions ->
  (List.length (filteredPredictions "classification" predictions)
   + List.length (filteredPredictions "regression" predictions)
   = List.length predictions)%nat
  /\ Forall (fun p => keeps "classification" p = negb (keeps "regression" p))
            predictions.
Proof.
  induction 1 as [|p rest Hp Hrest [IHl IHk]]; [split; [reflexivity|constructor]|].
  assert (Hk : keeps "classification" p = negb (keeps "regression" p)).
  { unfold keeps.
    change (String.eqb "classification" "all") with false.
    change (String.eqb "regression" "all") with false. cbv iota.
    destruct Hp as [Hp|Hp]; rewrite Hp; reflexivity. }
  split; [|constructor; auto].
  unfold filteredPredictions in *. simpl. rewrite Hk.
  destruct (keeps "regression" p); simpl; lia.
Qed.

Lemma history_filters_partition_witness :
  (List.length (filteredPredictions "classification" sample_history)
   + List.length (filteredPredictions "regression" sample_history)
   = List.length sample_history)%nat.
Proof.
  apply history_filters_partition.
  apply Forall_cons; [right; reflexivity|].
  apply Forall_cons; [left; reflexivity|]. apply Forall_nil.
Defined.

End HistoryMore.

(** ** The predictions table *)

Section TableMore.
Import Db.

Lemma permitted_all c r : permitted c r = true.
Proof. destruct c; reflexivity. Qed.

Lemma filter_none (A : Type) (p : A -> bool) (l : list A) :
  (forall x, In x l -> p x = false) -> filter p l = [].
Proof.
  induction l as [|a l IH]; simpl; intros H; auto.
  rewrite (H a (or_introl eq_refl)). apply IH. intros x Hx. apply H. now right.
Qed.

(** X20. A row that an INSERT returns can be read back: selecting by its
    id gives exactly that row, and any SELECT gives what it gave before,
    followed by the new row when the WHERE clause accepts it. *)
Theorem inserted_row_is_read_back (now : Z) (t : Table) (s : Insert) (row : Row) :
  snd (insert now t s) = Ok row ->
  select (fst (insert now t s)) (fun r => (id r =? id row)%Z) = [row]
  /\ forall where_,
       select (fst (insert now t s)) where_
       = select t where_ ++ (if where_ row then [row] else []).
Proof.
  intros Hok.
  destruct (insert_cases now t s) as [_ [[e [He _]]|[row' [Hr [Hrows [Hnin _]]]]]];
    [congruence|].
  assert (row' = row) by congruence. subst row'.
  assert (Hsel : forall where_,
             select (fst (insert now t s)) where_
             = select t where_ ++ (if where_ row then [row] else [])).
  { intros w. unfold select. rewrite Hrows, filter_app. simpl.
    rewrite permitted_all, andb_true_r. reflexivity. }
  split; [|exact Hsel].
  rewrite Hsel, Z.eqb_refl. unfold select. rewrite filter_none; [reflexivity|].
  intros r Hin. rewrite permitted_all, andb_true_r. apply Z.eqb_neq.
  intros Heq. apply Hnin. rewrite <- Heq. now apply in_map.
Qed.

Lemma inserted_row_is_read_back_witness :
  exists row,
    snd (insert 0 empty (Seed.sample "regression" Seed.features_1 Seed.result_2
                           "regression_pipeline_v1" 0)) = Ok row
    /\ select (fst (insert 0 empty
                      (Seed.sample "regression" Seed.features_1 Seed.result_2
                         "regression_pipeline_v1" 0)))
         (fun r => (id r =? id row)%Z) = [row].
Proof.
  eexists. split; [reflexivity|].
  refine (proj1 (inserted_row_is_read_back 0 empty _ _ _)). reflexivity.
Defined.

Lemma StronglySorted_map_filter (p : Row -> bool) (l : list Row) :
  StronglySorted Z.lt (map id l) -> StronglySorted Z.lt (map id (filter p l)).
Proof.
  induction l as [|r l IH]; simpl; intros H; auto.
  inversion H as [|? ? Hs Hall]; subst.
  destruct (p r); simpl; auto.
  constructor; auto.
  apply Forall_forall. intros y Hy. apply in_map_iff in Hy.
  destruct Hy as [x [<- Hx]]. apply filter_In in Hx.
  apply (proj1 (Forall_forall _ _) Hall). apply in_map. tauto.
Qed.

Lemma delete_ordered t w : ordered t -> ordered (delete t w).
Proof.
  intros [Hs Hle]. split; simpl.
  - now apply StronglySorted_map_filter.
  - apply Forall_forall. intros r Hr. apply filter_In in Hr.
    apply (proj1 (Forall_forall _ _) Hle). tauto.
Qed.

Lemma appends_and_deletes_ordered script :
  appends_and_deletes script -> forall t, ordered t -> ordered (exec_all t script).
Proof.
  unfold exec_all.
  induction 1 as [|[now st] rest Hst Hrest IH]; intros t Ht; simpl; auto.
  apply IH. simpl in Hst. destruct Hst as [[s [-> Hd]]|[w ->]]; simpl.
  - now apply insert_default_ordered.
  - now apply delete_ordered.
Qed.

Lemma appends_and_deletes_fresh script (bound : Z) (old : list Row) :
  appends_and_deletes script ->
  forall t,
    (bound <= last_value t)%Z ->
    (forall r, In r (rows t) -> In r old \/ (bound < id r)%Z) ->
    (bound <= last_value (exec_all t script))%Z
    /\ forall r, In r (rows (exec_all t script)) -> In r old \/ (bound < id r)%Z.
Proof.
  unfold exec_all.
  induction 1 as [|[now st] rest Hst Hrest IH]; intros t Hb Hrows; simpl; auto.
  apply IH; simpl in Hst; destruct Hst as [[s [-> Hd]]|[w ->]]; simpl.
  - destruct (insert_cases now t s) as [Hl _]. lia.
  - exact Hb.
  - destruct (insert_cases now t s)
      as [_ [[e [_ Hr]]|[row [_ [Hr [_ [_ [_ [_ Hid]]]]]]]]]; rewrite Hr; auto.
    intros r Hin. apply in_app_or in Hin. destruct Hin as [Hin|[<-|[]]]; auto.
    right. destruct (Hid Hd) as [-> _]. lia.
  - intros r Hin. apply filter_In in Hin. apply Hrows. tauto.
Qed.

(** X21. The store does not hand out an id twice, also after deletions:
    for scripts that append with the id left to the store and delete, the
    ids of the rows are strictly increasing and none is above the last
    sequence value, and every row found after more such statements is
    either a row that was there before or has an id above every id handed
    out until then. *)
Theorem deleted_ids_are_not_reused (pre post : list (Z * Statement)) :
  appends_and_deletes pre -> appends_and_deletes post ->
  ordered (exec_all empty pre)
  /\ ordered (exec_all (exec_all empty pre) post)
  /\ forall r,
       In r (rows (exec_all (exec_all empty pre) post)) ->
       In r (rows (exec_all empty pre))
       \/ (last_value (exec_all empty pre) < id r)%Z.
Proof.
  intros Hpre Hpost.
  pose proof (appends_and_deletes_ordered pre Hpre empty empty_ordered) as H1.
  split; [exact H1|]. split.
  - now apply appends_and_deletes_ordered.
  - apply (appends_and_deletes_fresh post (last_value (exec_all empty pre))
             (rows (exec_all empty pre)) Hpost (exec_all empty pre)); [lia|auto].
Qed.


Lemma deleted_ids_are_not_reused_witness :
  map id (rows (exec_all (exec_all empty
                            (map (pair 0%Z) (Seed.seed_data 0) ++ Seed.delete_all))
                  Seed.append_again)) = [4%Z]
  /\ ordered (exec_all (exec_all empty
                          (map (pair 0%Z) (Seed.seed_data 0) ++ Seed.delete_all))
                Seed.append_again).
Proof.
  split; [reflexivity|].
  refine (proj1 (proj2 (deleted_ids_are_not_reused
                          (map (pair 0%Z) (Seed.seed_data 0) ++ Seed.delete_all)
                          Seed.append_again _ _))).
  - unfold Seed.seed_data, Seed.delete_all, appends_and_deletes. simpl.
    repeat (apply Forall_cons; [left; eexists; split; reflexivity|]).
    apply Forall_cons; [right; eexists; reflexivity|]. apply Forall_nil.
  - unfold Seed.append_again, appends_and_deletes.
    apply Forall_cons; [left; eexists; split; reflexivity|]. apply Forall_nil.
Defined.

Lemma update_rows_frame now where_ assign : forall rs last last' rs',
  update_rows now where_ assign last rs = (last', Ok rs') ->
  Forall2 (fun r r' => where_ r = false -> r' = r) rs rs'.
Proof.
  induction rs as [|r rest IH]; intros last last' rs' H.
  - simpl in H. inversion H. constructor.
  - cbn [update_rows] in H. rewrite permitted_all, andb_true_r in H.
    destruct (where_ r) eqn:Ew.
    + destruct (eval_id last (i_id (rewrite_row r (assign r)))) as [last1 rid].
      destruct rid as [new_id|e]; cbn [bind] in H; [|inversion H].
      destruct (build_row now new_id (rewrite_row r (assign r))) as [row|e];
        cbn [bind] in H; [|inversion H].
      destruct (with_check ForUpdate row) as [row1|e]; [|inversion H].
      destruct (update_rows now where_ assign last1 rest) as [last2 rrest] eqn:Er.
      destruct rrest as [rest'|e]; cbn [bind] in H; inversion H; subst.
      constructor; [intros Hw; congruence|]. eapply IH; eauto.
    + destruct (update_rows now where_ assign last rest) as [last1 rrest] eqn:Er.
      destruct rrest as [rest'|e]; cbn [bind] in H; inversion H; subst.
      constructor; [auto|]. eapply IH; eauto.
Qed.

Lemma Forall2_refl_frame (w : Row -> bool) (l : list Row) :
  Forall2 (fun r r' => w r = false -> r' = r) l l.
Proof. induction l; constructor; auto. Qed.

(** X22. An UPDATE neither adds nor removes rows and is all or nothing:
    the table has as many rows after it as before, a row that the WHERE
    clause does not select stays as it is and where it is, and when the
    statement fails no row has changed. *)
Theorem update_keeps_other_rows
  (now : Z) (t : Table) (where_ : Row -> bool) (assign : Row -> Assign) :
  List.length (rows (fst (update now t where_ assign))) = List.length (rows t)
  /\ Forall2 (fun r r' => where_ r = false -> r' = r)
       (rows t) (rows (fst (update now t where_ assign)))
  /\ ((exists e, snd (update now t where_ assign) = Err e) ->
      rows (fst (update now t where_ assign)) = rows t).
Proof.
  assert (Hf : Forall2 (fun r r' => where_ r = false -> r' = r)
                 (rows t) (rows (fst (update now t where_ assign)))
               /\ ((exists e, snd (update now t where_ assign) = Err e) ->
                   rows (fst (update now t where_ assign)) = rows t)).
  { unfold update.
    destruct (update_rows now where_ assign (last_value t) (rows t))
      as [last r] eqn:E.
    destruct r as [rs|e]; simpl.
    - destruct (unique_ids rs); simpl.
      + split; [eapply update_rows_frame; eauto|].
        intros [e He]. discriminate.
      + split; [apply Forall2_refl_frame|reflexivity].
    - split; [apply Forall2_refl_frame|reflexivity]. }
  destruct Hf as [Hf He]. split; [|split; auto].
  symmetry. eapply Forall2_length; eauto.
Qed.

Lemma update_rows_last now where_ assign : forall rs last,
  (last <= fst (update_rows now where_ assign last rs))%Z.
Proof.
  induction rs as [|r rest IH]; intros last; cbn [update_rows]; [simpl; lia|].
  destruct (where_ r && permitted ForUpdate r)%bool.
  - pose proof (proj1 (eval_id_last last (i_id (rewrite_row r (assign r))))) as Hl.
    destruct (eval_id last (i_id (rewrite_row r (assign r)))) as [last1 rid].
    simpl in Hl.
    destruct (new_id <- rid;;
              row <- build_row now new_id (rewrite_row r (assign r));;
              with_check ForUpdate row); [|simpl; lia].
    specialize (IH last1).
    destruct (update_rows now where_ assign last1 rest) as [last2 rrest].
    simpl in *. lia.
  - specialize (IH last).
    destruct (update_rows now where_ assign last rest) as [last1 rrest].
    simpl in *. lia.
Qed.

Lemma exec_last now t st : (last_value t <= last_value (exec now t st))%Z.
Proof.
  destruct st as [s|w a|w]; simpl.
  - destruct (insert_cases now t s) as [H _]. lia.
  - unfold update.
    pose proof (update_rows_last now w a (rows t) (last_value t)) as H.
    destruct (update_rows now w a (last_value t) (rows t)) as [last r].
    simpl in H. destruct r as [rs|e]; [destruct (unique_ids rs)|]; simpl; exact H.
  - lia.
Qed.

(** X23. The sequence behind the ids never goes back: whatever statements
    run, failing ones included, its last value only stays or grows, and a
    DELETE leaves it where it is. *)
Theorem sequence_never_goes_back (script : list (Z * Statement)) (t : Table) :
  (last_value t <= last_value (exec_all t script))%Z
  /\ forall where_, last_value (delete t where_) = last_value t.
Proof.
  split; [|reflexivity]. unfold exec_all. revert t.
  induction script as [|[now st] rest IH]; intros t; simpl; [lia|].
  specialize (IH (exec now t st)). pose proof (exec_last now t st). lia.
Qed.













(** X25. Row level security is enabled, but every policy of the schema is
    USING (true) or WITH CHECK (true): a SELECT returns every row its
    WHERE clause accepts, a DELETE removes every such row, and a DELETE
    without condition empties the table. *)
Theorem policies_hide_and_protect_nothing (t : Table) (where_ : Row -> bool) :
  select t where_ = filter where_ (rows t)
  /\ rows (delete t where_) = filter (fun r => negb (where_ r)) (rows t)
  /\ select (delete t where_) where_ = []
  /\ rows (delete t (fun _ => true)) = [].
Proof.
  assert (Hsel : forall t', select t' where_ = filter where_ (rows t')).
  { intros t'. unfold select. apply filter_ext. intros r.
    now rewrite permitted_all, andb_true_r. }
  assert (Hdel : forall w, rows (delete t w) = filter (fun r => negb (w r)) (rows t)).
  { intros w. unfold delete. simpl. apply filter_ext. intros r.
    now rewrite permitted_all, andb_true_r. }
  split; [apply Hsel|]. split; [apply Hdel|]. split.
  - rewrite Hsel, Hdel. apply filter_none. intros r Hr.
    apply filter_In in Hr. destruct Hr as [_ Hr]. now apply negb_true_iff in Hr.
  - rewrite Hdel. now apply filter_none.
Qed.

End TableMore.
